(** * ChatInterface.tsx: markdown line renderer, suggestion rotator,
      submit handler and conversation view

    A shallow embedding of [src/components/ChatInterface.tsx].

    Strings are JavaScript strings: sequences of UTF-16 code units.  A code
    unit is a number ([N]); every statement below is over all lists of
    numbers, which covers every JavaScript string.  The regular expressions
    of the source are kept as syntax trees and run by a backtracking matcher
    that follows the ECMAScript matching rules for the constructs the source
    uses (sequence, alternation, greedy and lazy star, capture groups, [^]
    without the [m] flag).

    The file has the definitions first: strings, the matcher, the renderer
    [renderMarkdown], the effect that rotates the suggestion together with
    the part of the host it runs on, [handleSubmit], and the map over the
    history.  The lemmas follow, and the statements of the specification
    are the theorems [C1_list_runs] to [C10_first_part_required]. *)

From Stdlib Require Import String Ascii List NArith Arith Bool Lia.
Import ListNotations.

(** ** JavaScript strings *)

Module JS.

Definition char := N.
Definition jsstring := list char.

(** An ASCII literal as a JavaScript string. *)
Definition lit (s : string) : jsstring :=
  map N_of_ascii (list_ascii_of_string s).

Arguments lit s%_string.

(** The double quote, which the literals of this file never contain. *)
Definition dq : jsstring := [34%N].

Definition LF : char := 10%N.

(** [LineTerminator]: the code units that [.] does not match. *)
Definition is_line_terminator (c : char) : bool :=
  ((c =? 10) || (c =? 13) || (c =? 8232) || (c =? 8233))%N.

(** [\s], and the code units [String.prototype.trim] strips:
    [WhiteSpace] and [LineTerminator]. *)
Definition is_space (c : char) : bool :=
  (((9 <=? c) && (c <=? 13)) || (c =? 32) || (c =? 160) || (c =? 5760)
   || ((8192 <=? c) && (c <=? 8202)) || (c =? 8232) || (c =? 8233)
   || (c =? 8239) || (c =? 8287) || (c =? 12288) || (c =? 65279))%N.

(** [\d] *)
Definition is_digit (c : char) : bool := ((48 <=? c) && (c <=? 57))%N.

Definition is_char (a : ascii) (c : char) : bool := (c =? N_of_ascii a)%N.

Arguments is_char a%_char c.

(** A string is truthy when it is not empty. *)
Definition truthy (s : jsstring) : bool :=
  match s with [] => false | _ :: _ => true end.

Fixpoint trimStart (s : jsstring) : jsstring :=
  match s with
  | [] => []
  | c :: s' => if is_space c then trimStart s' else s
  end.

Fixpoint take_while (p : char -> bool) (s : jsstring) : jsstring :=
  match s with
  | [] => []
  | c :: s' => if p c then c :: take_while p s' else []
  end.

Fixpoint drop_while (p : char -> bool) (s : jsstring) : jsstring :=
  match s with
  | [] => []
  | c :: s' => if p c then drop_while p s' else s
  end.

Definition trimEnd (s : jsstring) : jsstring := rev (trimStart (rev s)).

Definition trim (s : jsstring) : jsstring := trimEnd (trimStart s).

(** [s.split('\n')] *)
Fixpoint split_lines (s : jsstring) : list jsstring :=
  match s with
  | [] => [[]]
  | c :: s' =>
      if (c =? LF)%N then [] :: split_lines s'
      else match split_lines s' with
           | l :: ls => (c :: l) :: ls
           | [] => [[c]]
           end
  end.

(** [`${v}`] for a value that is a string or [undefined]. *)
Definition to_string (v : option jsstring) : jsstring :=
  match v with Some s => s | None => lit "undefined" end.

End JS.

Import JS.

(** ** Regular expressions *)

Module RegExp.

Inductive regex : Type :=
| Bol                                  (* ^ (no m flag) *)
| Chr (p : char -> bool)               (* one code unit of a class *)
| Seq (r1 r2 : regex)
| Alt (r1 r2 : regex)                  (* r1|r2 *)
| Star (greedy : bool) (r : regex)     (* r* and r*? *)
| Group (n : nat) (r : regex).         (* the n-th capturing parenthesis *)

Definition plus (r : regex) : regex := Seq r (Star true r).

(** Capture [n] is bound to the text it matched last. *)
Definition captures := list (nat * jsstring).

Fixpoint capture (n : nat) (c : captures) : option jsstring :=
  match c with
  | [] => None
  | (m, s) :: c' => if Nat.eqb n m then Some s else capture n c'
  end.

(** The result of a match: the input left after it, and the captures. *)
Definition result := option (jsstring * captures).
Definition cont := nat -> jsstring -> captures -> result.

Definition accept : cont := fun _ s c => Some (s, c).

(** The iterations of a star whose body is matched by [body]: a greedy
    star tries one more iteration before it tries what follows, a lazy star
    the other way round.  An iteration that consumes nothing is rejected, so
    a star makes at most as many iterations as there are code units left,
    and [fuel], which starts above that number, never runs out. *)
Definition star_loop (body : nat -> jsstring -> captures -> cont -> result)
  (greedy : bool) (k : cont) : nat -> nat -> jsstring -> captures -> result :=
  fix loop (fuel : nat) (i : nat) (s : jsstring) (c : captures) : result :=
    match fuel with
    | 0 => k i s c
    | S f =>
        let again i' s' c' :=
          if length s' <? length s then loop f i' s' c' else None in
        if greedy then
          match body i s c again with
          | Some x => Some x
          | None => k i s c
          end
        else
          match k i s c with
          | Some x => Some x
          | None => body i s c again
          end
    end.

(** [rmatch r i s c k]: match [r] at index [i], where [s] is the input from
    [i] on, then continue with [k]; alternatives are tried in the order of
    the ECMAScript matcher. *)
Fixpoint rmatch (r : regex) (i : nat) (s : jsstring) (c : captures) (k : cont)
  {struct r} : result :=
  match r with
  | Bol => if Nat.eqb i 0 then k i s c else None
  | Chr p =>
      match s with
      | x :: s' => if p x then k (S i) s' c else None
      | [] => None
      end
  | Seq r1 r2 => rmatch r1 i s c (fun i' s' c' => rmatch r2 i' s' c' k)
  | Alt r1 r2 =>
      match rmatch r1 i s c k with
      | Some x => Some x
      | None => rmatch r2 i s c k
      end
  | Star g r' => star_loop (rmatch r') g k (S (length s)) i s c
  | Group n r' =>
      rmatch r' i s c
        (fun i' s' c' => k i' s' ((n, firstn (length s - length s') s) :: c'))
  end.

(** The star of a character class, by recursion on the input: what
    [star_loop] computes on it (lemmas [star_greedy_chr], [star_lazy_chr]). *)
Fixpoint greedy_chr (p : char -> bool) (k : cont) (i : nat) (s : jsstring)
  (c : captures) : result :=
  match s with
  | x :: s' =>
      if p x then
        match greedy_chr p k (S i) s' c with
        | Some r => Some r
        | None => k i s c
        end
      else k i s c
  | [] => k i s c
  end.

Fixpoint lazy_chr (p : char -> bool) (k : cont) (i : nat) (s : jsstring)
  (c : captures) : result :=
  match k i s c with
  | Some r => Some r
  | None =>
      match s with
      | x :: s' => if p x then lazy_chr p k (S i) s' c else None
      | [] => None
      end
  end.

(** Whether a pattern has a [^]. *)
Fixpoint anchored (r : regex) : bool :=
  match r with
  | Bol => true
  | Chr _ => false
  | Seq r1 r2 | Alt r1 r2 => anchored r1 || anchored r2
  | Star _ r' | Group _ r' => anchored r'
  end.

(** [RegExpBuiltinExec] without the [g] flag: the first index, from 0 on,
    where the pattern matches. *)
Fixpoint exec_from (r : regex) (i : nat) (s : jsstring) : option captures :=
  match rmatch r i s [] accept with
  | Some (_, c) => Some c
  | None =>
      match s with
      | [] => None
      | _ :: s' => exec_from r (S i) s'
      end
  end.

(** [s.match(r)] for a pattern without the [g] flag: [null], or the match,
    of which the source reads the captures only. *)
Definition str_match (r : regex) (s : jsstring) : option captures :=
  exec_from r 0 s.

(** A replacement string: literal text and [$n] references. *)
Inductive piece : Type :=
| Text (s : jsstring)
| Ref (n : nat).

Definition template := list piece.

(** [GetSubstitution]: a [$n] whose group did not take part is empty. *)
Definition substitute (t : template) (c : captures) : jsstring :=
  flat_map (fun p =>
              match p with
              | Text s => s
              | Ref n => match capture n c with Some x => x | None => [] end
              end) t.

(** [s.replace(r, t)] for a pattern with the [g] flag.  The scan goes over
    the input once; [skip] counts the code units of the last match still to
    step over.  After an empty match the scan moves on by one code unit,
    which is copied. *)
Fixpoint replace_scan (r : regex) (t : template) (skip i : nat) (s : jsstring)
  {struct s} : jsstring :=
  match skip with
  | S k =>
      match s with
      | [] => []
      | _ :: s' => replace_scan r t k (S i) s'
      end
  | 0 =>
      match rmatch r i s [] accept with
      | Some (rest, c) =>
          substitute t c ++
          match length s - length rest, s with
          | _, [] => []
          | 0, x :: s' => x :: replace_scan r t 0 (S i) s'
          | S k, _ :: s' => replace_scan r t k (S i) s'
          end
      | None =>
          match s with
          | [] => []
          | x :: s' => x :: replace_scan r t 0 (S i) s'
          end
      end
  end.

Definition replace (r : regex) (t : template) (s : jsstring) : jsstring :=
  replace_scan r t 0 0 s.

(** Strings, captures, results, continuations and replacement strings made
    of code units of a class [p] only. *)
Definition caps_in (p : char -> bool) (c : captures) : bool :=
  forallb (fun e => forallb p (snd e)) c.

Definition result_in (p : char -> bool) (x : jsstring * captures) : Prop :=
  forallb p (fst x) = true /\ caps_in p (snd x) = true.

Definition cont_in (p : char -> bool) (k : cont) : Prop :=
  forall i s c x,
    forallb p s = true -> caps_in p c = true -> k i s c = Some x ->
    result_in p x.

Definition template_in (p : char -> bool) (t : template) : bool :=
  forallb (fun pc => match pc with Text s => forallb p s | Ref _ => true end) t.

End RegExp.

Import RegExp.

(** ** The markdown line renderer *)

Module Markdown.

Definition star : regex := Chr (is_char "*").
Definition underscore : regex := Chr (is_char "_").
Definition backtick : regex := Chr (is_char "`").
Definition dash_or_star (c : char) : bool := is_char "*" c || is_char "-" c.
Definition any_char (c : char) : bool := negb (is_line_terminator c).
Definition not_backtick (c : char) : bool := negb (is_char "`" c).
Definition not_star (c : char) : bool := negb (is_char "*" c).

(** The code units at which a match of the bold or the emphasis pattern
    starts, and text that none of the three patterns touches. *)
Definition emphasis_marker (c : char) : bool := is_char "*" c || is_char "_" c.

Definition plain_char (c : char) : bool :=
  negb (emphasis_marker c) && not_backtick c && any_char c.

Definition plain_text (x : jsstring) : bool := forallb plain_char x.

Definition no_marker (c : char) : bool :=
  negb (emphasis_marker c) && not_backtick c.
Definition dot : regex := Chr any_char.
Definition ws : regex := Chr is_space.
Definition digit : regex := Chr is_digit.

Local Infix ";;" := Seq (at level 61, right associativity).

(** [/\*\*(.*?)\*\*|__(.*?)__/g] *)
Definition re_bold : regex :=
  Alt (star ;; star ;; Group 1 (Star false dot) ;; star ;; star)
      (underscore ;; underscore ;; Group 2 (Star false dot) ;;
       underscore ;; underscore).

(** [/\*(.*?)\*|_(.*?)_/g] *)
Definition re_em : regex :=
  Alt (star ;; Group 1 (Star false dot) ;; star)
      (underscore ;; Group 2 (Star false dot) ;; underscore).

(** [/`([^`]+)`/g] *)
Definition re_code : regex :=
  backtick ;; Group 1 (plus (Chr not_backtick)) ;; backtick.

(** The pattern of [isOl], token by token: [^ \s* \d+ \. \s ( .* )] *)
Definition re_ol : regex :=
  Bol ;; Star true ws ;; plus digit ;; Chr (is_char ".") ;; ws ;;
  Group 1 (Star true dot).

(** The pattern of [isUl], token by token: [^ \s* [\*\-] \s ( .* )] *)
Definition re_ul : regex :=
  Bol ;; Star true ws ;; Chr dash_or_star ;; ws ;; Group 1 (Star true dot).

(** ['<strong>$1$2</strong>'] *)
Definition tpl_bold : template :=
  [Text (lit "<strong>"); Ref 1; Ref 2; Text (lit "</strong>")].

(** ['<em>$1$2</em>'] *)
Definition tpl_em : template :=
  [Text (lit "<em>"); Ref 1; Ref 2; Text (lit "</em>")].

Definition code_open : jsstring :=
  lit "<code class=" ++ dq ++
  lit "bg-gem-mist/50 px-1 py-0.5 rounded-sm font-mono text-sm" ++ dq ++
  lit ">".

(** ['<code class="bg-gem-mist/50 ...">$1</code>'] *)
Definition tpl_code : template :=
  [Text code_open; Ref 1; Text (lit "</code>")].

Definition replace_bold : jsstring -> jsstring := replace re_bold tpl_bold.
Definition replace_em : jsstring -> jsstring := replace re_em tpl_em.
Definition replace_code : jsstring -> jsstring := replace re_code tpl_code.

(** The [line] of the loop body: the three replaces on [rawLine], in the
    order of the method chain. *)
Definition inline (rawLine : jsstring) : jsstring :=
  replace_code (replace_em (replace_bold rawLine)).

Inductive list_type : Type := ul | ol.

Definition list_type_eqb (a b : list_type) : bool :=
  match a, b with
  | ul, ul | ol, ol => true
  | _, _ => false
  end.

Definition tag (t : list_type) : jsstring :=
  match t with ul => lit "ul" | ol => lit "ol" end.

Record state : Type := mkState {
  html : jsstring;
  listType : option list_type;
  paraBuffer : jsstring
}.

Definition p_open : jsstring := lit "<p class=" ++ dq ++ lit "my-2" ++ dq ++ lit ">".
Definition p_close : jsstring := lit "</p>".
Definition br : jsstring := lit "<br/>".

Definition ol_open : jsstring :=
  lit "<ol class=" ++ dq ++
  lit "list-decimal list-inside my-2 pl-5 space-y-1" ++ dq ++ lit ">".

Definition ul_open : jsstring :=
  lit "<ul class=" ++ dq ++
  lit "list-disc list-inside my-2 pl-5 space-y-1" ++ dq ++ lit ">".

Definition list_open (t : list_type) : jsstring :=
  match t with ol => ol_open | ul => ul_open end.

Definition list_close (t : list_type) : jsstring :=
  lit "</" ++ tag t ++ lit ">".

Definition li (v : option jsstring) : jsstring :=
  lit "<li>" ++ to_string v ++ lit "</li>".

Definition flushPara (st : state) : state :=
  if truthy (paraBuffer st) then
    mkState (html st ++ p_open ++ paraBuffer st ++ p_close) (listType st) []
  else st.

Definition flushList (st : state) : state :=
  match listType st with
  | Some t => mkState (html st ++ list_close t) None (paraBuffer st)
  | None => st
  end.

(** [listType !== t] *)
Definition listType_differs (st : state) (t : list_type) : bool :=
  match listType st with
  | Some t' => negb (list_type_eqb t' t)
  | None => true
  end.

(** The branch of a list item of type [t] whose match is [m]. *)
Definition item (t : list_type) (m : captures) (st : state) : state :=
  let st1 := flushPara st in
  let st2 :=
    if listType_differs st1 t then
      let st' := flushList st1 in
      mkState (html st' ++ list_open t) (Some t) (paraBuffer st')
    else st1 in
  mkState (html st2 ++ li (capture 1 m)) (listType st2) (paraBuffer st2).

(** The body of the [for] loop. *)
Definition step (st : state) (rawLine : jsstring) : state :=
  let line := inline rawLine in
  match str_match re_ol line with
  | Some isOl => item ol isOl st
  | None =>
      match str_match re_ul line with
      | Some isUl => item ul isUl st
      | None =>
          let st1 := flushList st in
          match trim line with
          | [] => flushPara st1
          | _ :: _ =>
              mkState (html st1) (listType st1)
                (paraBuffer st1
                 ++ (if truthy (paraBuffer st1) then br else []) ++ line)
          end
      end
  end.

Definition init : state := mkState [] None [].

Definition run (st : state) (lines : list jsstring) : state :=
  fold_left step lines st.

Definition finish (st : state) : state := flushList (flushPara st).

(** [renderMarkdown(text).__html] *)
Definition renderMarkdown (text : jsstring) : jsstring :=
  if negb (truthy text) then []
  else html (finish (run init (split_lines text))).

(** The loop and the two final flushes, on the lines of a text. *)
Definition render_lines (lines : list jsstring) : jsstring :=
  html (finish (run init lines)).

(** *** Classification of a line

    What the two [match] calls and the [trim] test of the loop body decide,
    as a value; [step_class] is the loop body on that value. *)

Inductive line_class : Type :=
| Item (t : list_type) (m : captures)
| Blank
| Plain (line : jsstring).

Definition classify_line (line : jsstring) : line_class :=
  match str_match re_ol line with
  | Some isOl => Item ol isOl
  | None =>
      match str_match re_ul line with
      | Some isUl => Item ul isUl
      | None =>
          match trim line with
          | [] => Blank
          | _ :: _ => Plain line
          end
      end
  end.

Definition classify (rawLine : jsstring) : line_class :=
  classify_line (inline rawLine).

Definition step_class (st : state) (c : line_class) : state :=
  match c with
  | Item t m => item t m st
  | Blank => flushPara (flushList st)
  | Plain line =>
      let st1 := flushList st in
      mkState (html st1) (listType st1)
        (paraBuffer st1 ++ (if truthy (paraBuffer st1) then br else []) ++ line)
  end.

(** What a line, or a state, is in the middle of. *)
Inductive kind : Type :=
| KList (t : list_type)
| KPara.

Definition kind_eqb (a b : kind) : bool :=
  match a, b with
  | KList t, KList t' => list_type_eqb t t'
  | KPara, KPara => true
  | _, _ => false
  end.

Definition class_kind (c : line_class) : option kind :=
  match c with
  | Item t _ => Some (KList t)
  | Blank => None
  | Plain _ => Some KPara
  end.

Definition line_kind (rawLine : jsstring) : option kind :=
  class_kind (classify rawLine).

Definition state_kind (st : state) : option kind :=
  match listType st with
  | Some t => Some (KList t)
  | None => if truthy (paraBuffer st) then Some KPara else None
  end.

(** Two neighbours continue one block when they have the same kind. *)
Definition joins (a b : option kind) : bool :=
  match a, b with
  | Some x, Some y => kind_eqb x y
  | _, _ => false
  end.

Definition last_kind (lines : list jsstring) : option kind :=
  match rev lines with
  | [] => None
  | l :: _ => line_kind l
  end.

Definition head_kind (lines : list jsstring) : option kind :=
  match lines with
  | [] => None
  | l :: _ => line_kind l
  end.

(** What the two list patterns accept, read off the line directly: blanks,
    then a marker, then one blank; the capture is the rest of the line up
    to its first line terminator (lemmas [str_match_ul], [str_match_ol]). *)
Definition ul_item (line : jsstring) : option jsstring :=
  match drop_while is_space line with
  | c :: w :: rest =>
      if dash_or_star c && is_space w then Some (take_while any_char rest)
      else None
  | _ => None
  end.

Definition ol_item (line : jsstring) : option jsstring :=
  match drop_while is_space line with
  | d :: r =>
      if is_digit d then
        match drop_while is_digit r with
        | p :: w :: rest =>
            if is_char "." p && is_space w
            then Some (take_while any_char rest)
            else None
        | _ => None
        end
      else None
  | [] => None
  end.

(** The entry a list-item line adds. *)
Definition item_html (rawLine : jsstring) : jsstring :=
  match classify rawLine with
  | Item _ m => li (capture 1 m)
  | _ => []
  end.

Fixpoint join (sep : jsstring) (parts : list jsstring) : jsstring :=
  match parts with
  | [] => []
  | [x] => x
  | x :: rest => x ++ sep ++ join sep rest
  end.

(** The same state with [h] written before its output. *)
Definition prepend (h : jsstring) (st : state) : state :=
  mkState (h ++ html st) (listType st) (paraBuffer st).

(** No list is open while a paragraph is pending. *)
Definition exclusive (st : state) : Prop :=
  listType st = None \/ paraBuffer st = [].

(** *** The output as blocks

    The reading of the output the specification gives: a sequence of
    blocks, each a paragraph of lines or a list of entries.  [blocks] groups
    the classified lines; [blocks_html] writes the blocks out. *)

Inductive block : Type :=
| Para (lines : list jsstring)
| ListBlock (t : list_type) (entries : list (option jsstring)).

Definition block_html (b : block) : jsstring :=
  match b with
  | Para lines => p_open ++ join br lines ++ p_close
  | ListBlock t entries => list_open t ++ flat_map li entries ++ list_close t
  end.

Definition blocks_html (bs : list block) : jsstring := flat_map block_html bs.

Definition close_block (cur : option block) : list block :=
  match cur with
  | Some b => [b]
  | None => []
  end.

(** [advance cur c]: a line of class [c] after the open block [cur]
    continues it when it is of the same kind, and closes it otherwise; the
    result is the blocks closed and the block left open. *)
Definition advance (cur : option block) (c : line_class)
  : list block * option block :=
  match c, cur with
  | Item t m, Some (ListBlock t' entries) =>
      if list_type_eqb t' t
      then ([], Some (ListBlock t' (entries ++ [capture 1 m])))
      else ([ListBlock t' entries], Some (ListBlock t [capture 1 m]))
  | Item t m, _ => (close_block cur, Some (ListBlock t [capture 1 m]))
  | Blank, _ => (close_block cur, None)
  | Plain line, Some (Para lines) => ([], Some (Para (lines ++ [line])))
  | Plain line, _ => (close_block cur, Some (Para [line]))
  end.

(** [group cur cs]: the blocks of the classified lines [cs], where [cur] is
    the block the lines before them left open. *)
Fixpoint group (cur : option block) (cs : list line_class) : list block :=
  match cs with
  | [] => close_block cur
  | c :: cs' => fst (advance cur c) ++ group (snd (advance cur c)) cs'
  end.

(** The state of the loop in which [cur] is open and nothing is written. *)
Definition open_state (cur : option block) : state :=
  match cur with
  | None => init
  | Some (Para lines) => mkState [] None (join br lines)
  | Some (ListBlock t entries) =>
      mkState (list_open t ++ flat_map li entries) (Some t) []
  end.

Definition open_ok (cur : option block) : Prop :=
  match cur with
  | Some (Para lines) => join br lines <> []
  | _ => True
  end.

Definition blocks (text : jsstring) : list block :=
  group None (map classify (split_lines text)).

End Markdown.

Import Markdown.

Definition nl : jsstring := [LF].

(** ** The suggestion rotator

    The effect of the component on [exampleQuestions], and the part of the
    host it runs on: the table of live intervals, and React's rule for an
    effect with dependencies (before the effect runs again, and when the
    component unmounts, the cleanup the last run returned is called). *)

Module Rotator.

(** An array element read: [undefined] out of range. *)
Definition index (a : list jsstring) (i : nat) : option jsstring := nth_error a i.

(** What the interval callback closes over. *)
Record closure : Type := mkClosure {
  exampleQuestions : list jsstring;
  suggestionIndex : nat
}.

Record component : Type := mkComponent {
  currentSuggestion : option jsstring;     (* the state value; [None] is [undefined] *)
  intervals : list (nat * closure);        (* the live intervals of the host, by id *)
  nextId : nat;                            (* the id [setInterval] returns next *)
  cleanup : option nat;                    (* the [intervalId] of the pending cleanup *)
  mounted : bool
}.

(** [useState('')], before any effect has run. *)
Definition initial : component := mkComponent (Some []) [] 0 None true.

Definition clearInterval (id : nat) (tbl : list (nat * closure)) : list (nat * closure) :=
  filter (fun e => negb (Nat.eqb (fst e) id)) tbl.

(** The body of the effect, lines 26 to 38. *)
Definition effect (qs : list jsstring) (c : component) : component :=
  if Nat.eqb (length qs) 0 then
    mkComponent (Some []) (intervals c) (nextId c) None (mounted c)
  else
    mkComponent (index qs 0)
      ((nextId c, mkClosure qs 0) :: intervals c)
      (S (nextId c)) (Some (nextId c)) (mounted c).

(** The cleanup the last run of the effect returned, if it returned one. *)
Definition run_cleanup (c : component) : component :=
  match cleanup c with
  | Some id =>
      mkComponent (currentSuggestion c) (clearInterval id (intervals c))
        (nextId c) None (mounted c)
  | None => c
  end.

Fixpoint fire (id : nat) (tbl : list (nat * closure))
  : option (closure * list (nat * closure)) :=
  match tbl with
  | [] => None
  | (id', cl) :: tbl' =>
      if Nat.eqb id' id then
        let i := (suggestionIndex cl + 1) mod length (exampleQuestions cl) in
        let cl' := mkClosure (exampleQuestions cl) i in
        Some (cl', (id', cl') :: tbl')
      else
        match fire id tbl' with
        | Some (cl', tbl'') => Some (cl', (id', cl) :: tbl'')
        | None => None
        end
  end.

(** The host calls the callback of interval [id]; a cleared interval has
    no callback left to call. *)
Definition tick (id : nat) (c : component) : component :=
  match fire id (intervals c) with
  | Some (cl, tbl) =>
      mkComponent
        (if mounted c then index (exampleQuestions cl) (suggestionIndex cl)
         else currentSuggestion c)
        tbl (nextId c) (cleanup c) (mounted c)
  | None => c
  end.

Inductive event : Type :=
| Render (qs : list jsstring)   (* a render with a new [exampleQuestions] *)
| Tick (id : nat)               (* the interval [id] is due *)
| Unmount.

Definition mount (qs : list jsstring) : component := effect qs initial.

Definition handle (c : component) (e : event) : component :=
  match e with
  | Render qs => if mounted c then effect qs (run_cleanup c) else c
  | Tick id => tick id c
  | Unmount =>
      let c' := run_cleanup c in
      mkComponent (currentSuggestion c') (intervals c') (nextId c') (cleanup c') false
  end.

Definition handle_all (c : component) (es : list event) : component :=
  fold_left handle es c.

(** [n] ticks of the interval the component holds. *)
Fixpoint ticks (n : nat) (c : component) : component :=
  match n with
  | 0 => c
  | S n' =>
      match cleanup c with
      | Some id => ticks n' (tick id c)
      | None => c
      end
  end.

(** The component while the interval of its first effect is live, the
    callback at index [i]. *)
Definition running (qs : list jsstring) (i : nat) : component :=
  mkComponent (index qs i) [(0, mkClosure qs i)] 1 (Some 0) true.

(** The component holds no interval but the one its cleanup will clear. *)
Definition tidy (c : component) : Prop :=
  match cleanup c with
  | Some id =>
      mounted c = true /\ id < nextId c
      /\ exists cl, intervals c = [(id, cl)]
  | None => intervals c = []
  end.

End Rotator.

(** ** The input form *)

Module Form.

Record outcome : Type := mkOutcome {
  defaultPrevented : bool;
  sent : list jsstring;       (* the calls of [onSendMessage], in order *)
  query : jsstring            (* the [query] state after the handler *)
}.

(** [handleSubmit], on the [query] of the render it belongs to. *)
Definition handleSubmit (q : jsstring) : outcome :=
  if truthy (trim q) then mkOutcome true [q] []
  else mkOutcome true [] q.

End Form.

(** ** The conversation view *)

Module View.

Inductive role_name : Type := user | model.

(** Modelled from the spec: the [ChatMessage] type of [../types], which is
    not among the sources.  A message has a role, an ordered sequence of
    text parts and an optional sequence of grounding references; a
    reference has an optional retrieved-context text. *)
Record part : Type := mkPart { text : jsstring }.

Record chunk : Type := mkChunk { retrievedContext : option (option jsstring) }.

Record message : Type := mkMessage {
  role : role_name;
  parts : list part;
  groundingChunks : option (list chunk)
}.

(** The result of evaluating an expression that may throw. *)
Inductive completion (A : Type) : Type :=
| Normal (v : A)
| Throw_TypeError.

Arguments Normal {A} v.
Arguments Throw_TypeError {A}.

(** [message.parts[0].text]: the element read gives [undefined] on an empty
    array, and reading a property of [undefined] throws. *)
Definition first_part_text (m : message) : completion jsstring :=
  match nth_error (parts m) 0 with
  | Some p => Normal (text p)
  | None => Throw_TypeError
  end.

(** [chunk.retrievedContext?.text && (...)]: the markup of a source, or
    nothing when the text is missing or empty. *)
Definition source_view (c : chunk) : option jsstring :=
  match retrievedContext c with
  | Some (Some t) => if truthy t then Some (renderMarkdown t) else None
  | _ => None
  end.

Record bubble : Type := mkBubble {
  at_end : bool;                              (* [justify-end], for the user *)
  body : jsstring;                            (* the inner markup *)
  sources : option (list (option jsstring))   (* the Sources section *)
}.

(** The callback of [history.map]. *)
Definition message_view (m : message) : completion bubble :=
  match first_part_text m with
  | Throw_TypeError => Throw_TypeError
  | Normal t =>
      Normal
        (mkBubble
           (match role m with user => true | model => false end)
           (renderMarkdown t)
           (match role m, groundingChunks m with
            | model, Some (c :: cs) => Some (map source_view (c :: cs))
            | _, _ => None
            end))
  end.

(** [history.map(...)]: the first throw ends the render. *)
Fixpoint history_view (history : list message) : completion (list bubble) :=
  match history with
  | [] => Normal []
  | m :: rest =>
      match message_view m with
      | Throw_TypeError => Throw_TypeError
      | Normal b =>
          match history_view rest with
          | Throw_TypeError => Throw_TypeError
          | Normal bs => Normal (b :: bs)
          end
      end
  end.

End View.

(** ** The controls under the conversation

    The attributes and handlers of the suggestion button, the text input
    and the submit button (source lines 192 to 213), as functions of the
    props and state they read. *)

Module Controls.

(** [!isQueryLoading && currentSuggestion &&]: whether the suggestion
    button is rendered; [undefined] and the empty string are falsy. *)
Definition suggestionShown (isQueryLoading : bool)
  (currentSuggestion : option jsstring) : bool :=
  negb isQueryLoading
  && match currentSuggestion with Some s => truthy s | None => false end.

(** [onClick={() => setQuery(currentSuggestion)}]: the [query] after a click
    on the suggestion [s]. *)
Definition useSuggestion (s : jsstring) : jsstring := s.

(** [disabled={isQueryLoading}] of the input. *)
Definition inputDisabled (isQueryLoading : bool) : bool := isQueryLoading.

(** [disabled={isQueryLoading || !query.trim()}] of the submit button. *)
Definition submitDisabled (isQueryLoading : bool) (query : jsstring) : bool :=
  isQueryLoading || negb (truthy (trim query)).

End Controls.

(** ** The sources of a model message

    The [details] elements of the Sources section (source lines 147 to
    171): one for every chunk whose text is truthy, labelled
    [Source {chunkIndex + 1}] with the index of the chunk in
    [groundingChunks]. *)

Module Sources.

Import View.

Fixpoint source_entries (chunkIndex : nat) (chunks : list chunk)
  : list (nat * jsstring) :=
  match chunks with
  | [] => []
  | c :: rest =>
      match source_view c with
      | Some markup => (chunkIndex + 1, markup) :: source_entries (S chunkIndex) rest
      | None => source_entries (S chunkIndex) rest
      end
  end.

End Sources.

(** ** What the blocks hold

    The entries and paragraph lines of the blocks, and of the classified
    lines, to compare them in order. *)

Module Contents.

Inductive content : Type :=
| Entry (t : list_type) (v : option jsstring)
| Line (l : jsstring).

Definition block_contents (b : block) : list content :=
  match b with
  | Para lines => map Line lines
  | ListBlock t entries => map (Entry t) entries
  end.

Definition class_contents (c : line_class) : list content :=
  match c with
  | Item t m => [Entry t (capture 1 m)]
  | Blank => []
  | Plain line => [Line line]
  end.

End Contents.

(** A text of one line: no line feed in it. *)
Definition no_lf (s : jsstring) : bool := forallb (fun c => negb (c =? LF)%N) s.

(** The component that holds the interval [id] on the list [L], the
    callback at index [i], and shows the element of that index; [nid] is
    the id the next interval gets. *)
Definition holding (id nid : nat) (L : list jsstring) (i : nat)
  : Rotator.component :=
  Rotator.mkComponent (Rotator.index L i) [(id, Rotator.mkClosure L i)]
    nid (Some id) true.

(** The list in force after the renders of [es], up to the unmount. *)
Fixpoint latest (qs : list jsstring) (es : list Rotator.event) : list jsstring :=
  match es with
  | [] => qs
  | Rotator.Render qs' :: es' => latest qs' es'
  | Rotator.Tick _ :: es' => latest qs es'
  | Rotator.Unmount :: _ => qs
  end.

(** The component shows the element of [L] its interval points at, or the
    empty string when [L] is empty and it holds no interval. *)
Definition shows (L : list jsstring) (c : Rotator.component) : Prop :=
  match Rotator.cleanup c with
  | Some id =>
      Rotator.mounted c = true /\ id < Rotator.nextId c
      /\ exists i,
          i < length L
          /\ Rotator.intervals c = [(id, Rotator.mkClosure L i)]
          /\ Rotator.currentSuggestion c = nth_error L i
  | None =>
      Rotator.intervals c = []
      /\ (Rotator.mounted c = true ->
          L = [] /\ Rotator.currentSuggestion c = Some [])
  end.

Example render_inline_example :
  renderMarkdown (lit "**bold** and *em* and `code` __b__ _e_")
  = p_open ++ lit "<strong>bold</strong> and <em>em</em> and " ++ code_open
    ++ lit "code</code> <strong>b</strong> <em>e</em>" ++ p_close.
Proof. vm_compute. reflexivity. Qed.

Example render_bold_item :
  renderMarkdown (lit "* **Bold**: text")
  = ul_open ++ lit "<li><strong>Bold</strong>: text</li>" ++ list_close ul.
Proof. vm_compute. reflexivity. Qed.

(** Two results of the language that exercise the scan on empty matches:
    ['a1b'.replace(/\d*/g, '-')] is ['-a--b-'] and
    ['aaa'.replace(/a*?/g, '-')] is ['-a-a-a-']. *)
Example replace_empty_matches_greedy :
  replace (Star true (Chr is_digit)) [Text (lit "-")] (lit "a1b") = lit "-a--b-".
Proof. vm_compute. reflexivity. Qed.

Example replace_empty_matches_lazy :
  replace (Star false (Chr (is_char "a"))) [Text (lit "-")] (lit "aaa")
  = lit "-a-a-a-".
Proof. vm_compute. reflexivity. Qed.

(** ** The loop of the renderer *)

Section Loop.

Lemma step_classify (st : state) (rawLine : jsstring) :
  step st rawLine = step_class st (classify rawLine).
Proof.
  unfold step, classify, classify_line.
  destruct (str_match re_ol (inline rawLine)); [reflexivity|].
  destruct (str_match re_ul (inline rawLine)); [reflexivity|].
  destruct (trim (inline rawLine)); reflexivity.
Qed.

Lemma flushPara_prepend h st :
  flushPara (prepend h st) = prepend h (flushPara st).
Proof.
  destruct st as [h0 lt pb]. unfold flushPara, prepend; simpl.
  destruct (truthy pb); simpl; [|reflexivity].
  now rewrite app_assoc.
Qed.

Lemma flushList_prepend h st :
  flushList (prepend h st) = prepend h (flushList st).
Proof.
  destruct st as [h0 [t|] pb]; unfold flushList, prepend; simpl; [|reflexivity].
  now rewrite app_assoc.
Qed.

Lemma item_prepend t m h st :
  item t m (prepend h st) = prepend h (item t m st).
Proof.
  unfold item. rewrite flushPara_prepend.
  destruct (flushPara st) as [h1 [t'|] pb1]; unfold listType_differs; simpl.
  - destruct (negb (list_type_eqb t' t)); unfold prepend; simpl;
      now rewrite <- !app_assoc.
  - unfold prepend; simpl. now rewrite <- !app_assoc.
Qed.

Lemma step_class_prepend h st c :
  step_class (prepend h st) c = prepend h (step_class st c).
Proof.
  destruct c as [t m| |line]; simpl.
  - apply item_prepend.
  - now rewrite flushList_prepend, flushPara_prepend.
  - rewrite flushList_prepend. reflexivity.
Qed.

Lemma run_prepend h lines : forall st,
  run (prepend h st) lines = prepend h (run st lines).
Proof.
  induction lines as [|l ls IH]; intros st; simpl; [reflexivity|].
  rewrite !step_classify, step_class_prepend. apply IH.
Qed.

Lemma finish_prepend h st : finish (prepend h st) = prepend h (finish st).
Proof. unfold finish. now rewrite flushPara_prepend, flushList_prepend. Qed.

Lemma list_type_eqb_eq a b : list_type_eqb a b = true <-> a = b.
Proof. destruct a, b; simpl; split; congruence. Qed.

Lemma list_type_eqb_refl a : list_type_eqb a a = true.
Proof. now destruct a. Qed.

Lemma kind_eqb_eq a b : kind_eqb a b = true <-> a = b.
Proof.
  destruct a as [t|], b as [t'|]; simpl; try (split; congruence).
  rewrite list_type_eqb_eq. split; congruence.
Qed.

Lemma joins_false a b : a <> b -> joins a b = false.
Proof.
  intros H. destruct a as [x|], b as [y|]; simpl; try reflexivity.
  destruct (kind_eqb x y) eqn:E; [|reflexivity].
  apply kind_eqb_eq in E. congruence.
Qed.

(** Every step leaves the state exclusive, whatever it was. *)
Lemma exclusive_step_class st c : exclusive (step_class st c).
Proof.
  destruct st as [h lt pb], c as [t m| |line]; unfold exclusive.
  - right. unfold step_class, item, flushPara, listType_differs, flushList; simpl.
    destruct pb; simpl; destruct lt as [t'|]; simpl;
      try destruct (list_type_eqb t' t); reflexivity.
  - left. unfold step_class, flushPara, flushList; simpl.
    destruct lt; simpl; destruct pb; reflexivity.
  - left. unfold step_class, flushList; simpl. destruct lt; reflexivity.
Qed.

Lemma exclusive_init : exclusive init.
Proof. now left. Qed.

Lemma run_snoc st lines l : run st (lines ++ [l]) = step (run st lines) l.
Proof. unfold run. now rewrite fold_left_app. Qed.

Lemma exclusive_run lines : exclusive (run init lines).
Proof.
  destruct lines as [|l ls] using rev_ind; [apply exclusive_init|].
  rewrite run_snoc, step_classify. apply exclusive_step_class.
Qed.

Lemma classify_plain rawLine line :
  classify rawLine = Plain line -> line = inline rawLine /\ line <> [].
Proof.
  unfold classify, classify_line.
  destruct (str_match re_ol _); [discriminate|].
  destruct (str_match re_ul _); [discriminate|].
  destruct (trim (inline rawLine)) eqn:E; [discriminate|].
  intros [= <-]. split; [reflexivity|].
  intros H. rewrite H in E. discriminate.
Qed.

Lemma truthy_buffer pb line :
  line <> [] -> truthy (pb ++ (if truthy pb then br else []) ++ line) = true.
Proof.
  intros H. destruct pb; simpl; [|reflexivity].
  destruct line; [congruence|reflexivity].
Qed.

Lemma state_kind_step st rawLine :
  state_kind (step st rawLine) = line_kind rawLine.
Proof.
  rewrite step_classify. unfold line_kind.
  destruct (classify rawLine) as [t m| |line] eqn:E.
  - destruct st as [h lt pb].
    unfold step_class, item, flushPara, listType_differs, flushList, state_kind;
      simpl.
    destruct pb; simpl; destruct lt as [t'|]; simpl; try reflexivity;
      destruct (list_type_eqb t' t) eqn:Et; simpl; try reflexivity;
      apply list_type_eqb_eq in Et; now subst.
  - destruct st as [h lt pb].
    unfold step_class, flushPara, flushList, state_kind; simpl.
    destruct lt; simpl; destruct pb; reflexivity.
  - apply classify_plain in E as [_ Hne].
    destruct st as [h lt pb].
    unfold step_class, flushList, state_kind.
    destruct lt; cbn [listType paraBuffer html]; now rewrite truthy_buffer.
Qed.

Lemma last_kind_snoc lines l : last_kind (lines ++ [l]) = line_kind l.
Proof. unfold last_kind. now rewrite rev_unit. Qed.

Lemma state_kind_run lines : state_kind (run init lines) = last_kind lines.
Proof.
  destruct lines as [|l ls] using rev_ind; [reflexivity|].
  now rewrite run_snoc, state_kind_step, last_kind_snoc.
Qed.

(** A line that does not continue what the state is in the middle of finds
    the state as the two final flushes would leave it. *)
Lemma step_class_break st c :
  exclusive st ->
  joins (state_kind st) (class_kind c) = false ->
  step_class st c = prepend (html (finish st)) (step_class init c).
Proof.
  destruct st as [h lt pb]. unfold exclusive, state_kind; simpl.
  intros Hex Hj.
  destruct lt as [t|].
  - destruct Hex as [Hex|Hex]; [discriminate|]. subst pb.
    destruct c as [t' m| |line]; simpl in *.
    + unfold item, finish, flushPara, flushList, listType_differs, prepend; simpl.
      rewrite Hj. simpl. now rewrite <- !app_assoc.
    + unfold finish, flushPara, flushList, prepend; simpl. now rewrite app_nil_r.
    + unfold finish, flushPara, flushList, prepend; simpl. now rewrite app_nil_r.
  - destruct c as [t' m| |line]; simpl in *.
    + unfold item, finish, flushPara, flushList, listType_differs, prepend.
      destruct pb; simpl; now rewrite <- ?app_assoc.
    + unfold finish, flushPara, flushList, prepend.
      destruct pb; simpl; now rewrite app_nil_r.
    + destruct pb; simpl in *; [|discriminate].
      unfold finish, flushPara, flushList, prepend; simpl. now rewrite app_nil_r.
Qed.

(** Where two neighbours do not continue one block, the output is the
    output of the lines before followed by the output of the lines after. *)
Lemma render_lines_break pre post :
  joins (last_kind pre) (head_kind post) = false ->
  render_lines (pre ++ post) = render_lines pre ++ render_lines post.
Proof.
  intros Hj. unfold render_lines, run. rewrite fold_left_app.
  fold (run init pre).
  destruct post as [|b post']; simpl.
  - now rewrite app_nil_r.
  - rewrite (step_classify (run init pre)).
    rewrite step_class_break.
    + rewrite <- step_classify.
      fold (run (prepend (html (finish (run init pre))) (step init b)) post').
      rewrite run_prepend, finish_prepend. reflexivity.
    + apply exclusive_run.
    + rewrite state_kind_run. exact Hj.
Qed.

Lemma line_kind_item rawLine t :
  line_kind rawLine = Some (KList t) -> exists m, classify rawLine = Item t m.
Proof.
  unfold line_kind. destruct (classify rawLine) as [t' m| |line]; simpl;
    try discriminate.
  intros [= ->]. now exists m.
Qed.

Lemma line_kind_plain rawLine :
  line_kind rawLine = Some KPara ->
  classify rawLine = Plain (inline rawLine) /\ inline rawLine <> [].
Proof.
  unfold line_kind. destruct (classify rawLine) as [t' m| |line] eqn:E; simpl;
    try discriminate.
  intros _. apply classify_plain in E as [-> Hne]. now split.
Qed.

Lemma run_items t ls : forall h,
  Forall (fun l => line_kind l = Some (KList t)) ls ->
  run (mkState h (Some t) []) ls
  = mkState (h ++ flat_map item_html ls) (Some t) [].
Proof.
  induction ls as [|l ls IH]; intros h Hall; simpl.
  - now rewrite app_nil_r.
  - inversion Hall as [|? ? Hl Hls]; subst.
    destruct (line_kind_item _ _ Hl) as [m Hm].
    rewrite step_classify, Hm. unfold item_html at 1. rewrite Hm.
    unfold step_class, item, flushPara, listType_differs; simpl.
    rewrite list_type_eqb_refl; simpl.
    fold (run (mkState (h ++ li (capture 1 m)) (Some t) []) ls).
    rewrite IH by assumption. now rewrite <- app_assoc.
Qed.

(** A run of list items of one type, alone, is one list block. *)
Lemma render_lines_items t l ls :
  Forall (fun l => line_kind l = Some (KList t)) (l :: ls) ->
  render_lines (l :: ls)
  = list_open t ++ flat_map item_html (l :: ls) ++ list_close t.
Proof.
  intros Hall. inversion Hall as [|? ? Hl Hls]; subst.
  destruct (line_kind_item _ _ Hl) as [m Hm].
  unfold render_lines. simpl run. rewrite step_classify, Hm.
  unfold step_class, item, init, flushPara, listType_differs, flushList; simpl.
  fold (run (mkState (list_open t ++ li (capture 1 m)) (Some t) []) ls).
  rewrite run_items by assumption.
  unfold finish, flushPara, flushList; simpl.
  unfold item_html at 2. rewrite Hm. now rewrite <- !app_assoc.
Qed.

Lemma join_cons sep x xs :
  join sep (x :: xs) = x ++ flat_map (fun y => sep ++ y) xs.
Proof.
  revert x. induction xs as [|y ys IH]; intros x.
  - simpl. now rewrite app_nil_r.
  - change (join sep (x :: y :: ys)) with (x ++ sep ++ join sep (y :: ys)).
    rewrite IH. simpl. now rewrite <- app_assoc.
Qed.

Lemma run_plain ls : forall h pb,
  pb <> [] ->
  Forall (fun l => line_kind l = Some KPara) ls ->
  run (mkState h None pb) ls
  = mkState h None (pb ++ flat_map (fun y => br ++ y) (map inline ls)).
Proof.
  induction ls as [|l ls IH]; intros h pb Hpb Hall; simpl.
  - now rewrite app_nil_r.
  - inversion Hall as [|? ? Hl Hls]; subst.
    destruct (line_kind_plain _ Hl) as [Hc Hne].
    rewrite step_classify, Hc.
    unfold step_class, flushList; cbn [listType paraBuffer html].
    destruct pb as [|c pb]; [congruence|]. cbn [truthy].
    fold (run (mkState h None ((c :: pb) ++ br ++ inline l)) ls).
    rewrite IH; [|destruct pb; discriminate|assumption].
    now rewrite <- !app_assoc.
Qed.

(** A run of plain lines, alone, is one paragraph block. *)
Lemma render_lines_plain l ls :
  Forall (fun l => line_kind l = Some KPara) (l :: ls) ->
  render_lines (l :: ls) = p_open ++ join br (map inline (l :: ls)) ++ p_close.
Proof.
  intros Hall. inversion Hall as [|? ? Hl Hls]; subst.
  destruct (line_kind_plain _ Hl) as [Hc Hne].
  unfold render_lines. simpl run. rewrite step_classify, Hc.
  unfold step_class, init, flushList; cbn [listType paraBuffer html truthy].
  cbn [app].
  fold (run (mkState [] None (inline l)) ls).
  rewrite run_plain by assumption.
  unfold finish, flushPara, flushList; cbn [listType paraBuffer html].
  simpl map. rewrite join_cons.
  destruct (inline l) as [|c r] eqn:E; [congruence|]. reflexivity.
Qed.

Lemma last_kind_all (P : option kind) l ls :
  Forall (fun x => line_kind x = P) (l :: ls) -> last_kind (l :: ls) = P.
Proof.
  intros Hall.
  destruct (exists_last (l := l :: ls)) as [ls' [x Hx]]; [discriminate|].
  rewrite Hx in *. rewrite last_kind_snoc.
  apply Forall_app in Hall as [_ Hall]. now inversion Hall.
Qed.

Lemma head_kind_app l ls post : head_kind ((l :: ls) ++ post) = line_kind l.
Proof. reflexivity. Qed.

(** A run of lines of one kind, closed on both sides by a line of another
    kind, a blank line or an end of the text, is rendered on its own. *)
Lemma render_lines_run (k : kind) pre l ls post :
  Forall (fun x => line_kind x = Some k) (l :: ls) ->
  last_kind pre <> Some k ->
  head_kind post <> Some k ->
  render_lines (pre ++ (l :: ls) ++ post)
  = render_lines pre ++ render_lines (l :: ls) ++ render_lines post.
Proof.
  intros Hall Hpre Hpost.
  rewrite render_lines_break.
  - rewrite render_lines_break; [reflexivity|].
    rewrite (last_kind_all _ _ _ Hall). apply joins_false. congruence.
  - rewrite head_kind_app. inversion Hall; subst.
    replace (line_kind l) with (Some k). now apply joins_false.
Qed.

Lemma renderMarkdown_lines text :
  renderMarkdown text = render_lines (split_lines text).
Proof. destruct text; reflexivity. Qed.

Local Arguments li : simpl never.
Local Arguments list_open : simpl never.
Local Arguments list_close : simpl never.
Local Arguments p_open : simpl never.
Local Arguments p_close : simpl never.
Local Arguments br : simpl never.

Lemma join_snoc sep ls x :
  ls <> [] -> join sep (ls ++ [x]) = join sep ls ++ sep ++ x.
Proof.
  induction ls as [|y ys IH]; intros Hne; [congruence|].
  destruct ys as [|z zs]; [reflexivity|].
  change (join sep ((y :: z :: zs) ++ [x]))
    with (y ++ sep ++ join sep ((z :: zs) ++ [x])).
  rewrite IH by discriminate.
  change (join sep (y :: z :: zs)) with (y ++ sep ++ join sep (z :: zs)).
  now rewrite <- !app_assoc.
Qed.

Lemma blocks_html_app a b : blocks_html (a ++ b) = blocks_html a ++ blocks_html b.
Proof. apply flat_map_app. Qed.

Lemma finish_open_state cur :
  open_ok cur -> html (finish (open_state cur)) = blocks_html (close_block cur).
Proof.
  destruct cur as [[ls|t es]|]; simpl; intros Hok.
  - unfold finish, flushPara, flushList; simpl.
    destruct (join br ls); [congruence|]. simpl. now rewrite app_nil_r.
  - unfold finish, flushPara, flushList; simpl.
    now rewrite app_nil_r, <- app_assoc.
  - reflexivity.
Qed.

(** One line, on the state of an open block, writes the blocks that
    [advance] closes and leaves the block that [advance] leaves open. *)
Lemma step_open_state cur rawLine :
  open_ok cur ->
  step (open_state cur) rawLine
  = prepend (blocks_html (fst (advance cur (classify rawLine))))
      (open_state (snd (advance cur (classify rawLine))))
  /\ open_ok (snd (advance cur (classify rawLine))).
Proof.
  intros Hok. rewrite step_classify.
  destruct (classify rawLine) as [t m| |line] eqn:E.
  - destruct cur as [[ls|t' es]|]; simpl in *.
    + split; [|exact I].
      unfold item, flushPara, flushList, listType_differs, prepend; simpl.
      destruct (join br ls); [congruence|]. simpl.
      now rewrite !app_nil_r, <- !app_assoc.
    + unfold item, flushPara, flushList, listType_differs, prepend; simpl.
      destruct (list_type_eqb t' t) eqn:Et; simpl; split; try exact I.
      * rewrite flat_map_app. simpl. now rewrite !app_nil_r, <- !app_assoc.
      * now rewrite !app_nil_r, <- !app_assoc.
    + split; [|exact I].
      unfold item, flushPara, flushList, listType_differs, prepend; simpl.
      now rewrite !app_nil_r.
  - destruct cur as [[ls|t' es]|]; simpl in *; (split; [|exact I]).
    + unfold flushPara, flushList, prepend; simpl.
      destruct (join br ls); [congruence|]. simpl. now rewrite !app_nil_r.
    + unfold flushPara, flushList, prepend; simpl.
      now rewrite !app_nil_r, <- !app_assoc.
    + reflexivity.
  - apply classify_plain in E as [_ Hne].
    destruct cur as [[ls|t' es]|]; simpl in *.
    + assert (Hls : ls <> []) by (intros ->; now apply Hok).
      rewrite (join_snoc br ls line Hls). split.
      * unfold flushList, prepend; simpl.
        destruct (join br ls); [congruence|]. reflexivity.
      * destruct (join br ls); [congruence|]. discriminate.
    + split; [|assumption].
      unfold flushList, prepend; simpl.
      now rewrite !app_nil_r, <- !app_assoc.
    + split; [reflexivity|assumption].
Qed.

Lemma render_group lines : forall cur,
  open_ok cur ->
  html (finish (run (open_state cur) lines))
  = blocks_html (group cur (map classify lines)).
Proof.
  induction lines as [|l ls IH]; intros cur Hok.
  - now apply finish_open_state.
  - destruct (step_open_state cur l Hok) as [Hstep Hok'].
    simpl run. simpl group. rewrite Hstep.
    fold (run (prepend (blocks_html (fst (advance cur (classify l))))
                 (open_state (snd (advance cur (classify l))))) ls).
    rewrite run_prepend, finish_prepend, blocks_html_app. simpl.
    now rewrite IH.
Qed.

(** The output is the blocks of the text, written out one after another. *)
Lemma renderMarkdown_blocks text :
  renderMarkdown text = blocks_html (blocks text).
Proof.
  rewrite renderMarkdown_lines. unfold render_lines, blocks.
  now apply (render_group (split_lines text) None).
Qed.

End Loop.

(** ** The matcher on the patterns of the source *)

Section Matcher.

Lemma star_loop_S body g k f i s c :
  star_loop body g k (S f) i s c
  = let again i' s' c' :=
      if length s' <? length s then star_loop body g k f i' s' c' else None in
    if g then
      match body i s c again with
      | Some x => Some x
      | None => k i s c
      end
    else
      match k i s c with
      | Some x => Some x
      | None => body i s c again
      end.
Proof. reflexivity. Qed.

Lemma rmatch_chr_cons p i x s c k :
  rmatch (Chr p) i (x :: s) c k = if p x then k (S i) s c else None.
Proof. reflexivity. Qed.

Lemma rmatch_chr_nil p i c k : rmatch (Chr p) i [] c k = None.
Proof. reflexivity. Qed.

Arguments star_loop : simpl never.

Lemma star_greedy_chr p k i s c :
  rmatch (Star true (Chr p)) i s c k = greedy_chr p k i s c.
Proof.
  change (star_loop (rmatch (Chr p)) true k (S (length s)) i s c
          = greedy_chr p k i s c).
  assert (H : forall fuel i s c, length s < fuel ->
            star_loop (rmatch (Chr p)) true k fuel i s c = greedy_chr p k i s c).
  { clear. induction fuel as [|f IH]; intros i s c Hlen; [lia|].
    rewrite star_loop_S. cbv zeta.
    destruct s as [|x s']; [now rewrite rmatch_chr_nil|].
    rewrite rmatch_chr_cons. cbn [greedy_chr]. destruct (p x); [|reflexivity].
    replace (length s' <? length (x :: s')) with true
      by (symmetry; apply Nat.ltb_lt; simpl; lia).
    rewrite IH by (simpl in Hlen; lia). reflexivity. }
  apply H. lia.
Qed.

Lemma star_lazy_chr p k i s c :
  rmatch (Star false (Chr p)) i s c k = lazy_chr p k i s c.
Proof.
  change (star_loop (rmatch (Chr p)) false k (S (length s)) i s c
          = lazy_chr p k i s c).
  assert (H : forall fuel i s c, length s < fuel ->
            star_loop (rmatch (Chr p)) false k fuel i s c = lazy_chr p k i s c).
  { clear. induction fuel as [|f IH]; intros i s c Hlen; [lia|].
    rewrite star_loop_S. cbv zeta.
    destruct s as [|x s']; cbn [lazy_chr].
    - rewrite rmatch_chr_nil. destruct (k i [] c); reflexivity.
    - rewrite rmatch_chr_cons. destruct (k i (x :: s') c); [reflexivity|].
      destruct (p x); [|reflexivity].
      replace (length s' <? length (x :: s')) with true
        by (symmetry; apply Nat.ltb_lt; simpl; lia).
      apply IH. simpl in Hlen. lia. }
  apply H. lia.
Qed.

(** A greedy star of a class stops where the class stops, when what
    follows cannot start with a code unit of the class ... *)
Lemma greedy_chr_disjoint p k :
  (forall i x s c, p x = true -> k i (x :: s) c = None) ->
  forall s i c,
    greedy_chr p k i s c
    = k (i + length (take_while p s)) (drop_while p s) c.
Proof.
  intros Hk. induction s as [|x s' IH]; intros i c; simpl.
  - now rewrite Nat.add_0_r.
  - destruct (p x) eqn:E; simpl.
    + rewrite IH, Nat.add_succ_r. cbn [Nat.add].
      destruct (k (S (i + _)) _ c) eqn:Ek; [reflexivity|].
      now apply Hk.
    + now rewrite Nat.add_0_r.
Qed.

(** ... and when what follows accepts anything. *)
Lemma greedy_chr_total p k :
  (forall i s c, k i s c <> None) ->
  forall s i c,
    greedy_chr p k i s c
    = k (i + length (take_while p s)) (drop_while p s) c.
Proof.
  intros Hk. induction s as [|x s' IH]; intros i c; simpl.
  - now rewrite Nat.add_0_r.
  - destruct (p x) eqn:E; simpl.
    + rewrite IH, Nat.add_succ_r. cbn [Nat.add].
      destruct (k (S (i + _)) _ c) eqn:Ek; [reflexivity|].
      now apply Hk in Ek.
    + now rewrite Nat.add_0_r.
Qed.

Lemma take_drop_while p s :
  firstn (length s - length (drop_while p s)) s = take_while p s.
Proof.
  induction s as [|x s' IH]; [reflexivity|].
  simpl drop_while. simpl take_while. destruct (p x).
  - assert (Hlen : length (drop_while p s') <= length s').
    { clear. induction s' as [|y s IH]; simpl; [lia|].
      destruct (p y); simpl; lia. }
    replace (length (x :: s') - length (drop_while p s'))
      with (S (length s' - length (drop_while p s'))) by (cbn [length]; lia).
    cbn [firstn]. now rewrite IH.
  - now rewrite Nat.sub_diag.
Qed.

Lemma exec_from_anchored r s : forall i,
  exec_from (Seq Bol r) (S i) s = None.
Proof.
  induction s as [|x s' IH]; intros i; simpl; [reflexivity|]. apply IH.
Qed.

Lemma str_match_anchored r s :
  str_match (Seq Bol r) s
  = match rmatch r 0 s [] accept with
    | Some (_, c) => Some c
    | None => None
    end.
Proof.
  unfold str_match. destruct s as [|x s']; simpl.
  - destruct (rmatch r 0 [] [] accept) as [[? ?]|]; reflexivity.
  - destruct (rmatch r 0 (x :: s') [] accept) as [[? ?]|]; [reflexivity|].
    apply exec_from_anchored.
Qed.

Lemma rmatch_seq r1 r2 i s c k :
  rmatch (Seq r1 r2) i s c k
  = rmatch r1 i s c (fun i' s' c' => rmatch r2 i' s' c' k).
Proof. reflexivity. Qed.

Lemma rmatch_alt r1 r2 i s c k :
  rmatch (Alt r1 r2) i s c k
  = match rmatch r1 i s c k with
    | Some x => Some x
    | None => rmatch r2 i s c k
    end.
Proof. reflexivity. Qed.

Lemma rmatch_group n r i s c k :
  rmatch (Group n r) i s c k
  = rmatch r i s c
      (fun i' s' c' => k i' s' ((n, firstn (length s - length s') s) :: c')).
Proof. reflexivity. Qed.

(** The capture of the closing [( .* )] of the two list patterns. *)
Lemma rmatch_rest i s c :
  rmatch (Group 1 (Star true dot)) i s c accept
  = Some (drop_while any_char s, (1, take_while any_char s) :: c).
Proof.
  rewrite rmatch_group. unfold dot. rewrite star_greedy_chr.
  rewrite greedy_chr_total by (intros; discriminate).
  unfold accept. now rewrite take_drop_while.
Qed.

Lemma space_not_marker x : is_space x = true -> dash_or_star x = false.
Proof.
  unfold is_space, dash_or_star, is_char. simpl N_of_ascii. intros H.
  destruct (N.eqb_spec x 42); [subst; discriminate|].
  destruct (N.eqb_spec x 45); [subst; discriminate|]. reflexivity.
Qed.

Lemma space_not_digit x : is_space x = true -> is_digit x = false.
Proof.
  unfold is_space, is_digit. intros H.
  destruct (N.leb_spec 48 x), (N.leb_spec x 57); simpl; try reflexivity.
  exfalso. revert H.
  repeat match goal with
         | |- context [N.leb ?a ?b] => destruct (N.leb_spec a b); try lia
         | |- context [N.eqb ?a ?b] => destruct (N.eqb_spec a b); try lia
         end; simpl; discriminate.
Qed.

Lemma digit_not_dot x : is_digit x = true -> is_char "." x = false.
Proof.
  unfold is_digit, is_char. simpl N_of_ascii. intros H.
  destruct (N.eqb_spec x 46); [subst; discriminate|reflexivity].
Qed.

Ltac rmatch_step :=
  rewrite ?rmatch_seq; rewrite ?rmatch_chr_cons, ?rmatch_chr_nil; cbv beta.

(** [line.match] on the pattern of [isUl]. *)
Lemma str_match_ul line :
  str_match re_ul line = option_map (fun x => [(1, x)]) (ul_item line).
Proof.
  unfold re_ul. rewrite str_match_anchored, rmatch_seq.
  unfold ws at 1. rewrite star_greedy_chr, greedy_chr_disjoint.
  - unfold ul_item.
    destruct (drop_while is_space line) as [|c [|w rest]]; rmatch_step.
    + reflexivity.
    + destruct (dash_or_star c); [unfold ws; rmatch_step|]; reflexivity.
    + destruct (dash_or_star c); [|reflexivity].
      unfold ws. rmatch_step.
      destruct (is_space w); [|reflexivity].
      now rewrite rmatch_rest.
  - intros i x s c Hx. rmatch_step. now rewrite (space_not_marker _ Hx).
Qed.

(** [line.match] on the pattern of [isOl]. *)
Lemma str_match_ol line :
  str_match re_ol line = option_map (fun x => [(1, x)]) (ol_item line).
Proof.
  unfold re_ol. rewrite str_match_anchored, rmatch_seq.
  unfold ws at 1. rewrite star_greedy_chr, greedy_chr_disjoint.
  - unfold ol_item.
    destruct (drop_while is_space line) as [|d r]; [reflexivity|].
    unfold plus, digit. rmatch_step.
    destruct (is_digit d); [|reflexivity].
    rewrite star_greedy_chr, greedy_chr_disjoint.
    + destruct (drop_while is_digit r) as [|p [|w rest]]; rmatch_step.
      * reflexivity.
      * destruct (is_char "." p); [unfold ws; rmatch_step|]; reflexivity.
      * destruct (is_char "." p); [|reflexivity].
        unfold ws. rmatch_step.
        destruct (is_space w); [|reflexivity].
        now rewrite rmatch_rest.
    + intros i x s c Hx. rmatch_step. now rewrite (digit_not_dot _ Hx).
  - intros i x s c Hx. unfold plus, digit. rmatch_step.
    now rewrite (space_not_digit _ Hx).
Qed.

(** A pattern without [^] matches the same at every index. *)
Lemma rmatch_index r :
  anchored r = false ->
  forall i j s c k k',
    (forall i j s c, k i s c = k' j s c) ->
    rmatch r i s c k = rmatch r j s c k'.
Proof.
  induction r as [|p|r1 IH1 r2 IH2|r1 IH1 r2 IH2|g r IH|n r IH];
    simpl anchored; intros Ha i j s c k k' Hk.
  - discriminate.
  - destruct s as [|x s']; [reflexivity|].
    rewrite !rmatch_chr_cons. destruct (p x); [apply Hk|reflexivity].
  - apply orb_false_elim in Ha as [Ha1 Ha2]. rewrite !rmatch_seq.
    apply IH1; [assumption|]. intros. now apply IH2.
  - apply orb_false_elim in Ha as [Ha1 Ha2]. cbn [rmatch].
    rewrite (IH1 Ha1 i j s c k k' Hk).
    destruct (rmatch r1 j s c k'); [reflexivity|]. now apply IH2.
  - change (star_loop (rmatch r) g k (S (length s)) i s c
            = star_loop (rmatch r) g k' (S (length s)) j s c).
    generalize (S (length s)) as fuel. intros fuel. revert i j s c.
    induction fuel as [|f IHf]; intros i j s c; [apply Hk|].
    rewrite !star_loop_S. cbv zeta.
    rewrite (Hk i j s c).
    rewrite (IH Ha i j s c _
               (fun i' s' c' =>
                  if length s' <? length s
                  then star_loop (rmatch r) g k' f i' s' c' else None)).
    + reflexivity.
    + intros i0 j0 s0 c0. destruct (length s0 <? length s); [|reflexivity].
      apply IHf.
  - rewrite !rmatch_group. apply IH; [assumption|]. intros. apply Hk.
Qed.

Lemma replace_scan_index r t :
  anchored r = false ->
  forall s skip i j, replace_scan r t skip i s = replace_scan r t skip j s.
Proof.
  intros Ha. induction s as [|x s' IH]; intros skip i j.
  - destruct skip; simpl; [|reflexivity].
    now rewrite (rmatch_index r Ha i j [] [] accept accept).
  - destruct skip as [|n]; simpl.
    + rewrite (rmatch_index r Ha i j (x :: s') [] accept accept) by reflexivity.
      destruct (rmatch r j (x :: s') [] accept) as [[rest c]|].
      * f_equal. destruct (match length rest with 0 => _ | S l => _ end);
          [f_equal|]; apply IH.
      * f_equal. apply IH.
    + apply IH.
Qed.

(** Where the pattern does not match, the scan copies one code unit. *)
Lemma replace_cons_fail r t x s :
  anchored r = false ->
  rmatch r 0 (x :: s) [] accept = None ->
  replace r t (x :: s) = x :: replace r t s.
Proof.
  intros Ha Hf. unfold replace. simpl. rewrite Hf. f_equal.
  now apply replace_scan_index.
Qed.

(** *** Code units that a replace cannot introduce *)

Section Chars.

Variable p : char -> bool.

Local Abbreviation caps_in := (caps_in p).
Local Abbreviation result_in := (result_in p).
Local Abbreviation cont_in := (cont_in p).
Local Abbreviation template_in := (template_in p).

Lemma forallb_firstn n : forall s, forallb p s = true -> forallb p (firstn n s) = true.
Proof.
  induction n as [|n IH]; intros [|x s]; simpl; try reflexivity.
  intros H. apply andb_true_iff in H as [Hx Hs]. now rewrite Hx, IH.
Qed.

(** What is left of the input, and what is captured, is made of code
    units of the input. *)
Lemma rmatch_chars r : forall k, cont_in k -> cont_in (fun i s c => rmatch r i s c k).
Proof.
  induction r as [|q|r1 IH1 r2 IH2|r1 IH1 r2 IH2|g r IH|n r IH];
    intros k Hk i s c x Hs Hc.
  - cbn [rmatch]. destruct (Nat.eqb i 0); [now apply Hk|discriminate].
  - destruct s as [|y s']; [discriminate|]. rewrite rmatch_chr_cons.
    simpl in Hs. apply andb_true_iff in Hs as [_ Hs].
    destruct (q y); [now apply Hk|discriminate].
  - rewrite rmatch_seq. apply (IH1 _ (IH2 _ Hk)); assumption.
  - cbn [rmatch]. destruct (rmatch r1 i s c k) eqn:E.
    + intros [= <-]. now apply (IH1 _ Hk i s c).
    + now apply (IH2 _ Hk).
  - change (star_loop (rmatch r) g k (S (length s)) i s c = Some x -> result_in x).
    generalize (S (length s)) as fuel. intros fuel. revert i s c x Hs Hc.
    induction fuel as [|f IHf]; intros i s c x Hs Hc; [now apply Hk|].
    rewrite star_loop_S. cbv zeta.
    assert (Hagain : cont_in (fun i' s' c' =>
                        if length s' <? length s
                        then star_loop (rmatch r) g k f i' s' c' else None)).
    { intros i' s' c' x' Hs' Hc'. destruct (length s' <? length s);
        [now apply IHf|discriminate]. }
    destruct g.
    + destruct (rmatch r i s c _) eqn:E.
      * intros [= <-]. now apply (IH _ Hagain i s c).
      * now apply Hk.
    + destruct (k i s c) eqn:E.
      * intros [= <-]. now apply (Hk i s c).
      * now apply (IH _ Hagain).
  - rewrite rmatch_group.
    apply (IH (fun i' s' c' =>
                 k i' s' ((n, firstn (length s - length s') s) :: c')));
      try assumption.
    intros i' s' c' x' Hs' Hc'. apply Hk; [assumption|].
    simpl. now rewrite forallb_firstn.
Qed.

Lemma accept_in : cont_in accept.
Proof. intros i s c x Hs Hc [= <-]. now split. Qed.

Lemma capture_in n : forall c x,
  caps_in c = true -> capture n c = Some x -> forallb p x = true.
Proof.
  induction c as [|[m y] c IH]; intros x Hc; simpl; [discriminate|].
  simpl in Hc. apply andb_true_iff in Hc as [Hy Hc].
  destruct (Nat.eqb n m); [now intros [= <-]|now apply IH].
Qed.

Lemma substitute_in t c :
  template_in t = true -> caps_in c = true -> forallb p (substitute t c) = true.
Proof.
  intros Ht Hc. induction t as [|pc t IH]; [reflexivity|].
  simpl in Ht. apply andb_true_iff in Ht as [Hpc Ht].
  unfold substitute. simpl. rewrite forallb_app. fold (substitute t c).
  rewrite (IH Ht), andb_true_r.
  destruct pc as [txt|n]; [assumption|].
  destruct (capture n c) eqn:E; [|reflexivity]. eapply capture_in; eauto.
Qed.

(** A replace whose replacement string is made of code units of [p], on an
    input made of code units of [p], gives a string made of them. *)
Lemma replace_scan_in r t :
  template_in t = true ->
  forall s skip i,
    forallb p s = true -> forallb p (replace_scan r t skip i s) = true.
Proof.
  intros Ht. induction s as [|x s' IH]; intros skip i Hs.
  - destruct skip; simpl; [|reflexivity].
    destruct (rmatch r i [] [] accept) as [[rest c]|] eqn:E; [|reflexivity].
    rewrite app_nil_r. apply substitute_in; [assumption|].
    assert (Hres : result_in (rest, c))
      by (eapply (rmatch_chars r accept accept_in); [| |exact E]; trivial).
    apply Hres.
  - pose proof Hs as Hs0. simpl in Hs. apply andb_true_iff in Hs as [Hx Hs].
    destruct skip as [|n]; simpl; [|now apply IH].
    destruct (rmatch r i (x :: s') [] accept) as [[rest c]|] eqn:E.
    + rewrite forallb_app. apply andb_true_iff. split.
      * apply substitute_in; [assumption|].
        assert (Hres : result_in (rest, c))
          by (eapply (rmatch_chars r accept accept_in); [| |exact E]; trivial).
        apply Hres.
      * destruct (match length rest with 0 => _ | S l => _ end); simpl;
          [rewrite Hx; simpl|]; now apply IH.
    + simpl. rewrite Hx. simpl. now apply IH.
Qed.

Lemma replace_in r t s :
  template_in t = true -> forallb p s = true -> forallb p (replace r t s) = true.
Proof. intros. now apply replace_scan_in. Qed.

End Chars.

(** *** Classification, read off the line *)

Lemma classify_line_items line :
  classify_line line
  = match ol_item line with
    | Some x => Item ol [(1, x)]
    | None =>
        match ul_item line with
        | Some x => Item ul [(1, x)]
        | None => match trim line with [] => Blank | _ :: _ => Plain line end
        end
    end.
Proof.
  unfold classify_line. rewrite str_match_ol, str_match_ul.
  destruct (ol_item line); [reflexivity|].
  destruct (ul_item line); reflexivity.
Qed.

Lemma marker_not_space c : dash_or_star c = true -> is_space c = false.
Proof.
  intros H. destruct (is_space c) eqn:E; [|reflexivity].
  apply space_not_marker in E. congruence.
Qed.

Lemma marker_not_digit c : dash_or_star c = true -> is_digit c = false.
Proof.
  unfold dash_or_star, is_char, is_digit. simpl N_of_ascii. intros H.
  apply orb_true_iff in H as [H|H]; apply N.eqb_eq in H; now subst.
Qed.

(** A line that starts with a marker and a blank is an unordered item. *)
Lemma classify_line_marker c w rest :
  dash_or_star c = true -> is_space w = true ->
  classify_line (c :: w :: rest) = Item ul [(1, take_while any_char rest)].
Proof.
  intros Hc Hw. rewrite classify_line_items. unfold ol_item, ul_item.
  simpl drop_while. rewrite (marker_not_space _ Hc), (marker_not_digit _ Hc).
  now rewrite Hc, Hw.
Qed.

Lemma lazy_chr_none (q : char -> bool) (k : cont) :
  (forall i s c, forallb not_star s = true -> k i s c = None) ->
  forall s i c, forallb not_star s = true -> lazy_chr q k i s c = None.
Proof.
  intros Hk. induction s as [|x s' IH]; intros i c Hs; simpl.
  - now rewrite Hk.
  - rewrite (Hk _ _ _ Hs). simpl in Hs. apply andb_true_iff in Hs as [_ Hs].
    destruct (q x); [now apply IH|reflexivity].
Qed.

(** The emphasis pattern does not match at a [*] that no [*] follows. *)
Lemma re_em_star_alone s :
  forallb not_star s = true ->
  rmatch re_em 0 (N_of_ascii "*" :: s) [] accept = None.
Proof.
  intros Hs. unfold re_em. rewrite rmatch_alt.
  assert (H1 : rmatch (Seq star (Seq (Group 1 (Star false dot)) star)) 0
                 (N_of_ascii "*" :: s) [] accept = None).
  { rewrite rmatch_seq. unfold star at 1. rewrite rmatch_chr_cons.
    change (is_char "*" (N_of_ascii "*")) with true. cbv iota beta.
    rewrite rmatch_seq, rmatch_group. unfold dot. rewrite star_lazy_chr.
    apply lazy_chr_none; [|assumption].
    intros i [|x s'] c Hs'; [reflexivity|].
    unfold star. rewrite rmatch_chr_cons.
    simpl in Hs'. apply andb_true_iff in Hs' as [Hx _].
    unfold not_star in Hx. apply negb_true_iff in Hx. now rewrite Hx. }
  rewrite H1, rmatch_seq. unfold underscore at 1. now rewrite rmatch_chr_cons.
Qed.

(** The three replaces leave a leading ["- "] in place ... *)
Lemma inline_dash rest : inline (lit "- " ++ rest) = lit "- " ++ inline rest.
Proof.
  change (lit "- " ++ rest) with (N_of_ascii "-" :: N_of_ascii " " :: rest).
  change (lit "- " ++ inline rest)
    with (N_of_ascii "-" :: N_of_ascii " " :: inline rest).
  unfold inline, replace_bold, replace_em, replace_code.
  repeat (rewrite replace_cons_fail; [|reflexivity|reflexivity]).
  reflexivity.
Qed.

(** ... and a leading ["* "] too, when no other [*] is on the line. *)
Lemma inline_star rest :
  forallb not_star rest = true ->
  inline (lit "* " ++ rest) = lit "* " ++ inline rest.
Proof.
  intros Hs.
  change (lit "* " ++ rest) with (N_of_ascii "*" :: N_of_ascii " " :: rest).
  change (lit "* " ++ inline rest)
    with (N_of_ascii "*" :: N_of_ascii " " :: inline rest).
  unfold inline, replace_bold, replace_em, replace_code.
  rewrite (replace_cons_fail re_bold); [|reflexivity|reflexivity].
  rewrite (replace_cons_fail re_bold); [|reflexivity|reflexivity].
  rewrite (replace_cons_fail re_em); [|reflexivity|].
  - rewrite (replace_cons_fail re_em); [|reflexivity|reflexivity].
    repeat (rewrite (replace_cons_fail re_code); [|reflexivity|reflexivity]).
    reflexivity.
  - apply (re_em_star_alone (N_of_ascii " " :: replace re_bold tpl_bold rest)).
    simpl. now apply replace_in.
Qed.

Lemma classify_dash rest :
  classify (lit "- " ++ rest) = Item ul [(1, take_while any_char (inline rest))].
Proof.
  unfold classify. rewrite inline_dash.
  now apply (classify_line_marker (N_of_ascii "-") (N_of_ascii " ")).
Qed.

Lemma classify_star rest :
  forallb not_star rest = true ->
  classify (lit "* " ++ rest) = Item ul [(1, take_while any_char (inline rest))].
Proof.
  intros Hs. unfold classify. rewrite inline_star by assumption.
  now apply (classify_line_marker (N_of_ascii "*") (N_of_ascii " ")).
Qed.

End Matcher.

(** ** The inline patterns on marked text *)

Section Inline.

Lemma replace_scan_skip r t a post : forall i,
  replace_scan r t (length a) i (a ++ post)
  = replace_scan r t 0 (i + length a) post.
Proof.
  induction a as [|x a IH]; intros i; simpl.
  - now rewrite Nat.add_0_r.
  - rewrite IH. f_equal. lia.
Qed.

(** A match at the start of the input is replaced, and the scan goes on
    behind it. *)
Lemma replace_match r t x m post c :
  anchored r = false ->
  rmatch r 0 ((x :: m) ++ post) [] accept = Some (post, c) ->
  replace r t ((x :: m) ++ post) = substitute t c ++ replace r t post.
Proof.
  intros Ha Hm. unfold replace.
  change (replace_scan r t 0 0 ((x :: m) ++ post))
    with (match rmatch r 0 ((x :: m) ++ post) [] accept with
          | Some (rest, c) =>
              substitute t c ++
              match length ((x :: m) ++ post) - length rest with
              | 0 => x :: replace_scan r t 0 1 (m ++ post)
              | S k => replace_scan r t k 1 (m ++ post)
              end
          | None => x :: replace_scan r t 0 1 (m ++ post)
          end).
  rewrite Hm. f_equal.
  replace (length ((x :: m) ++ post) - length post) with (S (length m))
    by (rewrite length_app; cbn [length]; lia).
  rewrite replace_scan_skip. now apply replace_scan_index.
Qed.

(** Text in which no match can start is copied. *)
Lemma replace_no_start (first : char -> bool) r t :
  anchored r = false ->
  (forall x s, first x = false -> rmatch r 0 (x :: s) [] accept = None) ->
  forall a rest,
    forallb (fun c => negb (first c)) a = true ->
    replace r t (a ++ rest) = a ++ replace r t rest.
Proof.
  intros Ha Hf. induction a as [|x a IH]; intros rest Hall; [reflexivity|].
  simpl in Hall. apply andb_true_iff in Hall as [Hx Hall].
  apply negb_true_iff in Hx. simpl.
  rewrite replace_cons_fail by auto. now rewrite IH.
Qed.

Lemma bold_no_start x s :
  emphasis_marker x = false -> rmatch re_bold 0 (x :: s) [] accept = None.
Proof.
  unfold emphasis_marker. intros H. apply orb_false_elim in H as [H1 H2].
  unfold re_bold, star, underscore.
  now rewrite rmatch_alt, !rmatch_seq, !rmatch_chr_cons, H1, H2.
Qed.

Lemma em_no_start x s :
  emphasis_marker x = false -> rmatch re_em 0 (x :: s) [] accept = None.
Proof.
  unfold emphasis_marker. intros H. apply orb_false_elim in H as [H1 H2].
  unfold re_em, star, underscore.
  now rewrite rmatch_alt, !rmatch_seq, !rmatch_chr_cons, H1, H2.
Qed.

Lemma code_no_start x s :
  is_char "`" x = false -> rmatch re_code 0 (x :: s) [] accept = None.
Proof.
  intros H. unfold re_code, backtick.
  now rewrite rmatch_seq, rmatch_chr_cons, H.
Qed.

Lemma forallb_weaken (p q : char -> bool) x :
  (forall c, p c = true -> q c = true) ->
  forallb p x = true -> forallb q x = true.
Proof.
  intros Hpq. induction x as [|c x IH]; simpl; [reflexivity|].
  intros H. apply andb_true_iff in H as [Hc Hx]. now rewrite (Hpq c Hc), IH.
Qed.

Lemma plain_char_any c : plain_char c = true -> any_char c = true.
Proof. unfold plain_char. intros H. now apply andb_true_iff in H as [_ H]. Qed.

Lemma plain_char_no_marker c : plain_char c = true -> no_marker c = true.
Proof. unfold plain_char. intros H. now apply andb_true_iff in H as [H _]. Qed.

Lemma no_marker_emphasis c :
  no_marker c = true -> negb (emphasis_marker c) = true.
Proof. unfold no_marker. intros H. now apply andb_true_iff in H as [H _]. Qed.

Lemma no_marker_backtick c :
  no_marker c = true -> negb (is_char "`" c) = true.
Proof. unfold no_marker. intros H. now apply andb_true_iff in H as [_ H]. Qed.

Lemma no_marker_star c : no_marker c = true -> negb (is_char "*" c) = true.
Proof.
  intros H. apply no_marker_emphasis in H. unfold emphasis_marker in H.
  apply negb_true_iff, orb_false_elim in H as [H _]. now rewrite H.
Qed.

Lemma no_marker_underscore c :
  no_marker c = true -> negb (is_char "_" c) = true.
Proof.
  intros H. apply no_marker_emphasis in H. unfold emphasis_marker in H.
  apply negb_true_iff, orb_false_elim in H as [_ H]. now rewrite H.
Qed.

(** A lazy star of a class steps over text of the class on which what
    follows fails. *)
Lemma lazy_chr_skip (p q : char -> bool) (k : cont) c post :
  (forall i y s, q y = true -> k i (y :: s) c = None) ->
  forall x i,
    forallb p x = true -> forallb q x = true ->
    lazy_chr p k i (x ++ post) c = lazy_chr p k (i + length x) post c.
Proof.
  intros Hk. induction x as [|y x IH]; intros i Hp Hq; simpl.
  - now rewrite Nat.add_0_r.
  - simpl in Hp, Hq. apply andb_true_iff in Hp as [Hy Hp].
    apply andb_true_iff in Hq as [Hy' Hq].
    rewrite (Hk i y (x ++ post) Hy'), Hy, IH by assumption. f_equal. lia.
Qed.

Lemma firstn_app_exact (x post : jsstring) :
  firstn (length (x ++ post) - length post) (x ++ post) = x.
Proof.
  replace (length (x ++ post) - length post) with (length x + 0)
    by (rewrite length_app; lia).
  now rewrite firstn_app_2, app_nil_r.
Qed.

(** [(.*?)] up to a closing delimiter [close] that starts with a
    code unit [d] the text does not contain. *)
Lemma lazy_group_until n (d : char -> bool) (close : regex) x post c k :
  forallb any_char x = true ->
  forallb (fun y => negb (d y)) x = true ->
  (forall i y s c' k', d y = false -> rmatch close i (y :: s) c' k' = None) ->
  (forall i c', rmatch close i post c' k = None -> False) ->
  forall i,
    rmatch (Seq (Group n (Star false dot)) close) i (x ++ post) c k
    = rmatch close (i + length x) post ((n, x) :: c) k.
Proof.
  intros Hany Hd Hclose Hpost i.
  rewrite rmatch_seq, rmatch_group. unfold dot. rewrite star_lazy_chr.
  rewrite (lazy_chr_skip any_char (fun y => negb (d y))); try assumption.
  - destruct post as [|y post']; cbn [lazy_chr]; cbv beta;
      rewrite firstn_app_exact.
    + destruct (rmatch close (i + length x) [] ((n, x) :: c) k) eqn:E;
        [reflexivity|]. now apply Hpost in E.
    + destruct (rmatch close (i + length x) (y :: post') ((n, x) :: c) k) eqn:E;
        [reflexivity|]. now apply Hpost in E.
  - intros i' y s Hy. apply Hclose. now apply negb_true_iff.
Qed.

Lemma star_close i y s c k :
  is_char "*" y = false -> rmatch star i (y :: s) c k = None.
Proof. intros H. unfold star. now rewrite rmatch_chr_cons, H. Qed.

Lemma star_star_close i y s c k :
  is_char "*" y = false -> rmatch (Seq star star) i (y :: s) c k = None.
Proof. intros H. now rewrite rmatch_seq, star_close. Qed.

Lemma underscore_close i y s c k :
  is_char "_" y = false -> rmatch underscore i (y :: s) c k = None.
Proof. intros H. unfold underscore. now rewrite rmatch_chr_cons, H. Qed.

Lemma underscore_underscore_close i y s c k :
  is_char "_" y = false ->
  rmatch (Seq underscore underscore) i (y :: s) c k = None.
Proof. intros H. now rewrite rmatch_seq, underscore_close. Qed.

Ltac chr_step :=
  rewrite rmatch_seq, rmatch_chr_cons;
  simpl (is_char _ (N_of_ascii _)); cbv iota beta.

Ltac plain_side Hx :=
  first
    [ apply (forallb_weaken plain_char); [apply plain_char_any|exact Hx]
    | apply (forallb_weaken plain_char); [|exact Hx];
      let c := fresh "c" in
      let Hc := fresh "Hc" in
      intros c Hc;
      first [ now apply no_marker_star, plain_char_no_marker
            | now apply no_marker_underscore, plain_char_no_marker ] ].

(** The five marked forms, at the start of the input. *)
Lemma bold_star_match x post :
  plain_text x = true ->
  rmatch re_bold 0 (lit "**" ++ x ++ lit "**" ++ post) [] accept
  = Some (post, [(1, x)]).
Proof.
  intros Hx. unfold re_bold. rewrite rmatch_alt.
  change (lit "**" ++ x ++ lit "**" ++ post)
    with (N_of_ascii "*" :: N_of_ascii "*" :: x ++ lit "**" ++ post).
  assert (H : rmatch
                (Seq star (Seq star (Seq (Group 1 (Star false dot))
                                       (Seq star star)))) 0
                (N_of_ascii "*" :: N_of_ascii "*" :: x ++ lit "**" ++ post)
                [] accept = Some (post, [(1, x)])).
  { unfold star at 1 2. do 2 chr_step.
    rewrite (lazy_group_until 1 (is_char "*") (Seq star star));
      [reflexivity|plain_side Hx|plain_side Hx| |discriminate].
    intros. now apply star_star_close. }
  now rewrite H.
Qed.

Lemma bold_underscore_match x post :
  plain_text x = true ->
  rmatch re_bold 0 (lit "__" ++ x ++ lit "__" ++ post) [] accept
  = Some (post, [(2, x)]).
Proof.
  intros Hx. unfold re_bold. rewrite rmatch_alt.
  change (lit "__" ++ x ++ lit "__" ++ post)
    with (N_of_ascii "_" :: N_of_ascii "_" :: x ++ lit "__" ++ post).
  assert (H1 : rmatch
                 (Seq star (Seq star (Seq (Group 1 (Star false dot))
                                        (Seq star star)))) 0
                 (N_of_ascii "_" :: N_of_ascii "_" :: x ++ lit "__" ++ post)
                 [] accept = None).
  { unfold star at 1. now chr_step. }
  rewrite H1.
  unfold underscore at 1 2. do 2 chr_step.
  rewrite (lazy_group_until 2 (is_char "_") (Seq underscore underscore));
    [reflexivity|plain_side Hx|plain_side Hx| |discriminate].
  intros. now apply underscore_underscore_close.
Qed.

Lemma em_star_match x post :
  plain_text x = true ->
  rmatch re_em 0 (lit "*" ++ x ++ lit "*" ++ post) [] accept
  = Some (post, [(1, x)]).
Proof.
  intros Hx. unfold re_em. rewrite rmatch_alt.
  change (lit "*" ++ x ++ lit "*" ++ post)
    with (N_of_ascii "*" :: x ++ lit "*" ++ post).
  assert (H : rmatch (Seq star (Seq (Group 1 (Star false dot)) star)) 0
                (N_of_ascii "*" :: x ++ lit "*" ++ post) [] accept
              = Some (post, [(1, x)])).
  { unfold star at 1. chr_step.
    rewrite (lazy_group_until 1 (is_char "*") star);
      [reflexivity|plain_side Hx|plain_side Hx| |discriminate].
    intros. now apply star_close. }
  now rewrite H.
Qed.

Lemma em_underscore_match x post :
  plain_text x = true ->
  rmatch re_em 0 (lit "_" ++ x ++ lit "_" ++ post) [] accept
  = Some (post, [(2, x)]).
Proof.
  intros Hx. unfold re_em. rewrite rmatch_alt.
  change (lit "_" ++ x ++ lit "_" ++ post)
    with (N_of_ascii "_" :: x ++ lit "_" ++ post).
  assert (H1 : rmatch (Seq star (Seq (Group 1 (Star false dot)) star)) 0
                 (N_of_ascii "_" :: x ++ lit "_" ++ post) [] accept = None).
  { unfold star at 1. now chr_step. }
  rewrite H1.
  unfold underscore at 1. chr_step.
  rewrite (lazy_group_until 2 (is_char "_") underscore);
    [reflexivity|plain_side Hx|plain_side Hx| |discriminate].
  intros. now apply underscore_close.
Qed.

Lemma drop_while_stop p a b r :
  forallb p a = true -> p b = false -> drop_while p (a ++ b :: r) = b :: r.
Proof.
  intros Ha Hb. induction a as [|y a IH]; simpl.
  - now rewrite Hb.
  - simpl in Ha. apply andb_true_iff in Ha as [Hy Ha]. now rewrite Hy, IH.
Qed.

Lemma code_match y x post :
  plain_text (y :: x) = true ->
  rmatch re_code 0 (lit "`" ++ (y :: x) ++ lit "`" ++ post) [] accept
  = Some (post, [(1, y :: x)]).
Proof.
  intros Hx.
  assert (Hnb : forallb not_backtick (y :: x) = true).
  { apply (forallb_weaken plain_char); [|exact Hx].
    intros c Hc. now apply no_marker_backtick, plain_char_no_marker. }
  simpl in Hnb. apply andb_true_iff in Hnb as [Hy Hnb].
  unfold re_code. rewrite rmatch_seq.
  change (lit "`" ++ (y :: x) ++ lit "`" ++ post)
    with (N_of_ascii "`" :: (y :: x) ++ lit "`" ++ post).
  unfold backtick at 1. rewrite rmatch_chr_cons.
  change (is_char "`" (N_of_ascii "`")) with true. cbv iota beta.
  rewrite rmatch_seq, rmatch_group. unfold plus. rewrite rmatch_seq.
  change ((y :: x) ++ lit "`" ++ post) with (y :: x ++ lit "`" ++ post) at 1.
  rewrite rmatch_chr_cons, Hy. rewrite star_greedy_chr, greedy_chr_disjoint.
  - replace (drop_while not_backtick (x ++ lit "`" ++ post))
      with (lit "`" ++ post)
      by (symmetry;
          apply (drop_while_stop not_backtick x (N_of_ascii "`") post Hnb eq_refl)).
    rewrite firstn_app_exact. reflexivity.
  - intros i z s c Hz. unfold backtick. rewrite rmatch_chr_cons.
    unfold not_backtick in Hz. apply negb_true_iff in Hz. now rewrite Hz.
Qed.

(** A match of the whole input is replaced by its substitution. *)
Lemma replace_whole r t s c :
  anchored r = false ->
  s <> [] ->
  rmatch r 0 s [] accept = Some ([], c) ->
  rmatch r 0 [] [] accept = None ->
  replace r t s = substitute t c.
Proof.
  intros Ha Hs Hm Hnil. destruct s as [|x m]; [congruence|].
  rewrite <- (app_nil_r (x :: m)) in Hm |- *.
  rewrite (replace_match r t x m [] c Ha Hm).
  unfold replace. simpl. now rewrite Hnil, app_nil_r.
Qed.

Lemma replace_untouched (first : char -> bool) r t s :
  anchored r = false ->
  (forall x s', first x = false -> rmatch r 0 (x :: s') [] accept = None) ->
  rmatch r 0 [] [] accept = None ->
  forallb (fun c => negb (first c)) s = true ->
  replace r t s = s.
Proof.
  intros Ha Hf Hnil Hs.
  rewrite <- (app_nil_r s) at 1.
  rewrite (replace_no_start first r t Ha Hf s [] Hs).
  unfold replace. simpl. now rewrite Hnil, app_nil_r.
Qed.

Lemma replace_bold_untouched s :
  forallb (fun c => negb (emphasis_marker c)) s = true -> replace_bold s = s.
Proof.
  apply (replace_untouched emphasis_marker);
    [reflexivity|apply bold_no_start|reflexivity].
Qed.

Lemma replace_em_untouched s :
  forallb (fun c => negb (emphasis_marker c)) s = true -> replace_em s = s.
Proof.
  apply (replace_untouched emphasis_marker);
    [reflexivity|apply em_no_start|reflexivity].
Qed.

Lemma replace_code_untouched s :
  forallb (fun c => negb (is_char "`" c)) s = true -> replace_code s = s.
Proof.
  apply (replace_untouched (is_char "`"));
    [reflexivity|apply code_no_start|reflexivity].
Qed.

(** Text without a marker goes through the three replaces as it is. *)
Lemma inline_untouched s : forallb no_marker s = true -> inline s = s.
Proof.
  intros Hs. unfold inline.
  rewrite replace_bold_untouched
    by (apply (forallb_weaken no_marker); [apply no_marker_emphasis|exact Hs]).
  rewrite replace_em_untouched
    by (apply (forallb_weaken no_marker); [apply no_marker_emphasis|exact Hs]).
  apply replace_code_untouched.
  apply (forallb_weaken no_marker); [apply no_marker_backtick|exact Hs].
Qed.

Lemma em_code_untouched s :
  forallb no_marker s = true -> replace_code (replace_em s) = s.
Proof.
  intros Hs.
  rewrite replace_em_untouched
    by (apply (forallb_weaken no_marker); [apply no_marker_emphasis|exact Hs]).
  apply replace_code_untouched.
  apply (forallb_weaken no_marker); [apply no_marker_backtick|exact Hs].
Qed.

Lemma no_marker_wrapped a x b :
  forallb no_marker a = true -> plain_text x = true ->
  forallb no_marker b = true ->
  forallb no_marker (a ++ x ++ b) = true.
Proof.
  intros Ha Hx Hb. rewrite !forallb_app, Ha, Hb.
  rewrite (forallb_weaken plain_char no_marker x plain_char_no_marker Hx).
  reflexivity.
Qed.

Lemma inline_bold_star x :
  plain_text x = true ->
  inline (lit "**" ++ x ++ lit "**") = lit "<strong>" ++ x ++ lit "</strong>".
Proof.
  intros Hx. unfold inline.
  replace (replace_bold (lit "**" ++ x ++ lit "**"))
    with (lit "<strong>" ++ x ++ lit "</strong>").
  - apply (em_code_untouched (lit "<strong>" ++ x ++ lit "</strong>")).
    now apply no_marker_wrapped.
  - symmetry.
    apply (replace_whole re_bold tpl_bold _ [(1, x)]);
      [reflexivity|discriminate| |reflexivity].
    exact (bold_star_match x [] Hx).
Qed.

Lemma inline_bold_underscore x :
  plain_text x = true ->
  inline (lit "__" ++ x ++ lit "__") = lit "<strong>" ++ x ++ lit "</strong>".
Proof.
  intros Hx. unfold inline.
  replace (replace_bold (lit "__" ++ x ++ lit "__"))
    with (lit "<strong>" ++ x ++ lit "</strong>").
  - apply (em_code_untouched (lit "<strong>" ++ x ++ lit "</strong>")).
    now apply no_marker_wrapped.
  - symmetry.
    apply (replace_whole re_bold tpl_bold _ [(2, x)]);
      [reflexivity|discriminate| |reflexivity].
    exact (bold_underscore_match x [] Hx).
Qed.

(** The bold pattern leaves [*x*] and [_x_] alone. *)
Lemma replace_bold_single (d : ascii) x :
  emphasis_marker (N_of_ascii d) = true ->
  plain_text x = true ->
  replace_bold (N_of_ascii d :: x ++ [N_of_ascii d])
  = N_of_ascii d :: x ++ [N_of_ascii d].
Proof.
  intros Hd Hx.
  assert (Hone : replace_bold [N_of_ascii d] = [N_of_ascii d]).
  { unfold replace_bold, replace, re_bold, star, underscore. simpl.
    destruct (is_char "*" (N_of_ascii d)), (is_char "_" (N_of_ascii d));
      reflexivity. }
  unfold replace_bold. rewrite replace_cons_fail; [|reflexivity|].
  - f_equal.
    rewrite (replace_no_start emphasis_marker re_bold tpl_bold eq_refl
               bold_no_start x [N_of_ascii d]).
    + f_equal. exact Hone.
    + apply (forallb_weaken plain_char); [|exact Hx].
      intros c Hc. now apply no_marker_emphasis, plain_char_no_marker.
  - unfold re_bold. rewrite rmatch_alt.
    destruct x as [|y x'].
    + unfold star, underscore. simpl.
      destruct (is_char "*" (N_of_ascii d)), (is_char "_" (N_of_ascii d));
        reflexivity.
    + simpl in Hx. apply andb_true_iff in Hx as [Hy _].
      pose proof (no_marker_star y (plain_char_no_marker y Hy)) as Hs.
      pose proof (no_marker_underscore y (plain_char_no_marker y Hy)) as Hu.
      apply negb_true_iff in Hs, Hu.
      unfold star at 1 2, underscore at 1 2.
      rewrite !rmatch_seq, !rmatch_chr_cons. simpl app.
      rewrite !rmatch_seq, !rmatch_chr_cons, Hs, Hu.
      destruct (is_char "*" (N_of_ascii d)), (is_char "_" (N_of_ascii d));
        reflexivity.
Qed.

Lemma inline_em_star x :
  plain_text x = true ->
  inline (lit "*" ++ x ++ lit "*") = lit "<em>" ++ x ++ lit "</em>".
Proof.
  intros Hx. unfold inline.
  change (lit "*" ++ x ++ lit "*") with (N_of_ascii "*" :: x ++ [N_of_ascii "*"]).
  rewrite (replace_bold_single "*" x eq_refl Hx).
  replace (replace_em (N_of_ascii "*" :: x ++ [N_of_ascii "*"]))
    with (lit "<em>" ++ x ++ lit "</em>").
  - apply replace_code_untouched.
    apply (forallb_weaken no_marker); [apply no_marker_backtick|].
    now apply no_marker_wrapped.
  - symmetry.
    apply (replace_whole re_em tpl_em _ [(1, x)]);
      [reflexivity|discriminate| |reflexivity].
    exact (em_star_match x [] Hx).
Qed.

Lemma inline_em_underscore x :
  plain_text x = true ->
  inline (lit "_" ++ x ++ lit "_") = lit "<em>" ++ x ++ lit "</em>".
Proof.
  intros Hx. unfold inline.
  change (lit "_" ++ x ++ lit "_") with (N_of_ascii "_" :: x ++ [N_of_ascii "_"]).
  rewrite (replace_bold_single "_" x eq_refl Hx).
  replace (replace_em (N_of_ascii "_" :: x ++ [N_of_ascii "_"]))
    with (lit "<em>" ++ x ++ lit "</em>").
  - apply replace_code_untouched.
    apply (forallb_weaken no_marker); [apply no_marker_backtick|].
    now apply no_marker_wrapped.
  - symmetry.
    apply (replace_whole re_em tpl_em _ [(2, x)]);
      [reflexivity|discriminate| |reflexivity].
    exact (em_underscore_match x [] Hx).
Qed.

Lemma inline_code y x :
  plain_text (y :: x) = true ->
  inline (lit "`" ++ (y :: x) ++ lit "`")
  = code_open ++ (y :: x) ++ lit "</code>".
Proof.
  intros Hx. unfold inline.
  assert (He : forallb (fun c => negb (emphasis_marker c))
                 (lit "`" ++ (y :: x) ++ lit "`") = true).
  { rewrite !forallb_app.
    rewrite (forallb_weaken plain_char _ (y :: x)
               (fun c Hc => no_marker_emphasis c (plain_char_no_marker c Hc)) Hx).
    reflexivity. }
  rewrite (replace_bold_untouched _ He), (replace_em_untouched _ He).
  apply (replace_whole re_code tpl_code _ [(1, y :: x)]);
    [reflexivity|discriminate| |reflexivity].
  exact (code_match y x [] Hx).
Qed.

End Inline.

(** ** Blank strings *)

Section Trim.

Lemma trimStart_nil s : trimStart s = [] <-> forallb is_space s = true.
Proof.
  induction s as [|x s IH]; simpl; [tauto|].
  destruct (is_space x); simpl; [assumption|]. split; discriminate.
Qed.

Lemma trimStart_head s x s' : trimStart s = x :: s' -> is_space x = false.
Proof.
  induction s as [|y s IH]; simpl; [discriminate|].
  destruct (is_space y) eqn:E; [assumption|]. now intros [= <- _].
Qed.

Lemma forallb_rev_eq (p : char -> bool) s : forallb p (rev s) = forallb p s.
Proof.
  induction s as [|x s IH]; [reflexivity|].
  simpl. rewrite forallb_app, IH. simpl. rewrite andb_true_r. apply andb_comm.
Qed.

(** [s.trim()] is empty exactly when [s] is blank. *)
Lemma trim_nil_iff s : trim s = [] <-> forallb is_space s = true.
Proof.
  unfold trim, trimEnd. split.
  - intros H. apply (f_equal (@rev char)) in H. rewrite rev_involutive in H.
    simpl in H. apply trimStart_nil in H.
    rewrite forallb_rev_eq in H.
    destruct (trimStart s) as [|x s'] eqn:E; [now apply trimStart_nil|].
    apply trimStart_head in E. simpl in H. now rewrite E in H.
  - intros H. apply trimStart_nil in H. now rewrite H.
Qed.

Lemma trim_blank s :
  (match trim s with [] => true | _ :: _ => false end) = forallb is_space s.
Proof.
  destruct (forallb is_space s) eqn:E.
  - apply trim_nil_iff in E. now rewrite E.
  - destruct (trim s) eqn:Et; [|reflexivity].
    apply trim_nil_iff in Et. congruence.
Qed.

End Trim.

(** ** The renderer: lists, paragraphs, inline markup *)

Section Renderer.

Lemma step_item st rawLine t :
  line_kind rawLine = Some (KList t) ->
  step st rawLine
  = mkState
      (html (flushPara st)
       ++ (if listType_differs st t
           then match listType st with
                | Some t' => list_close t'
                | None => []
                end ++ list_open t
           else [])
       ++ item_html rawLine)
      (Some t) [].
Proof.
  intros Hk. destruct (line_kind_item _ _ Hk) as [m Hm].
  rewrite step_classify. unfold item_html. rewrite Hm.
  destruct st as [h [t'|] pb];
    unfold step_class, item, flushPara, flushList, listType_differs;
    cbn [html listType paraBuffer].
  - destruct pb; cbn [truthy html listType paraBuffer];
      destruct (list_type_eqb t' t) eqn:Et; cbn [negb html listType paraBuffer];
      try (apply list_type_eqb_eq in Et; subst t');
      now rewrite <- ?app_assoc.
  - destruct pb; cbn [truthy html listType paraBuffer];
      now rewrite <- ?app_assoc.
Qed.

Lemma step_plain st rawLine :
  line_kind rawLine = Some KPara ->
  step st rawLine
  = mkState (html (flushList st)) None
      (paraBuffer st ++ (if truthy (paraBuffer st) then br else [])
       ++ inline rawLine).
Proof.
  intros Hk. destruct (line_kind_plain _ Hk) as [Hc _].
  rewrite step_classify, Hc.
  destruct st as [h [t'|] pb]; reflexivity.
Qed.

Lemma step_blank st rawLine :
  line_kind rawLine = None -> step st rawLine = flushPara (flushList st).
Proof.
  unfold line_kind. rewrite step_classify.
  destruct (classify rawLine); simpl; [discriminate|reflexivity|discriminate].
Qed.

(** When the type of the items changes from one line to the next, the
    second line closes the list of the first and opens its own. *)
Lemma step_switch pre a b t t' :
  t <> t' ->
  line_kind a = Some (KList t) ->
  line_kind b = Some (KList t') ->
  listType (run init (pre ++ [a])) = Some t
  /\ step (run init (pre ++ [a])) b
     = mkState
         (html (run init (pre ++ [a]))
          ++ list_close t ++ list_open t' ++ item_html b)
         (Some t') [].
Proof.
  intros Hne Ha Hb.
  assert (Hst : listType (run init (pre ++ [a])) = Some t
                /\ paraBuffer (run init (pre ++ [a])) = []).
  { rewrite run_snoc, (step_item _ _ _ Ha). now split. }
  destruct Hst as [Hlt Hpb]. split; [assumption|].
  rewrite (step_item _ _ _ Hb).
  destruct (run init (pre ++ [a])) as [h lt pb]. simpl in Hlt, Hpb. subst.
  unfold flushPara, listType_differs; simpl.
  destruct (list_type_eqb t t') eqn:E.
  - apply list_type_eqb_eq in E. contradiction.
  - simpl. now rewrite <- !app_assoc.
Qed.

Lemma line_kind_spec rawLine :
  line_kind rawLine
  = match ol_item (inline rawLine), ul_item (inline rawLine) with
    | Some _, _ => Some (KList ol)
    | None, Some _ => Some (KList ul)
    | None, None =>
        if forallb is_space (inline rawLine) then None else Some KPara
    end.
Proof.
  unfold line_kind, classify. rewrite classify_line_items.
  destruct (ol_item _); [reflexivity|].
  destruct (ul_item _); [reflexivity|].
  rewrite <- trim_blank.
  destruct (trim (inline rawLine)); reflexivity.
Qed.

Lemma item_html_spec rawLine :
  item_html rawLine
  = match ol_item (inline rawLine), ul_item (inline rawLine) with
    | Some x, _ => lit "<li>" ++ x ++ lit "</li>"
    | None, Some x => lit "<li>" ++ x ++ lit "</li>"
    | None, None => []
    end.
Proof.
  unfold item_html, classify. rewrite classify_line_items.
  destruct (ol_item _); [reflexivity|].
  destruct (ul_item _); [reflexivity|].
  destruct (trim (inline rawLine)); reflexivity.
Qed.

(** Claim C1, as the code has it.  For every text, a run of consecutive
    list-item lines of one type that no line of that type precedes or
    follows is rendered as one list block, with one entry per line in the
    order of the lines, between the output of the lines before and the
    output of the lines after.  A line is classified on its text after the
    inline substitutions (blanks, then digits and a period, or a marker,
    then a blank; the entry is the rest of the line): a line that then
    starts with a marker ([*] or [-]) and a blank is an unordered item;
    every line that starts with ["- "] is one, and so is every line that
    starts with ["* "] and has no other [*].  ["* a\n- b"] is one unordered list of [a], [b], and
    ["1. a\n2. b"] one ordered list of [a], [b].  A list item of the other
    type, right after a list item, closes the open list and opens a new
    one. *)
Theorem C1_list_runs :
  (forall text pre l ls post t,
      split_lines text = pre ++ (l :: ls) ++ post ->
      Forall (fun x => line_kind x = Some (KList t)) (l :: ls) ->
      last_kind pre <> Some (KList t) ->
      head_kind post <> Some (KList t) ->
      renderMarkdown text
      = render_lines pre
        ++ (list_open t ++ flat_map item_html (l :: ls) ++ list_close t)
        ++ render_lines post)
  /\ (forall rawLine,
        line_kind rawLine
        = match ol_item (inline rawLine), ul_item (inline rawLine) with
          | Some _, _ => Some (KList ol)
          | None, Some _ => Some (KList ul)
          | None, None =>
              if forallb is_space (inline rawLine) then None else Some KPara
          end)
  /\ (forall rawLine,
        item_html rawLine
        = match ol_item (inline rawLine), ul_item (inline rawLine) with
          | Some x, _ => lit "<li>" ++ x ++ lit "</li>"
          | None, Some x => lit "<li>" ++ x ++ lit "</li>"
          | None, None => []
          end)
  /\ (forall c w rest,
        dash_or_star c = true -> is_space w = true ->
        classify_line (c :: w :: rest)
        = Item ul [(1, take_while any_char rest)])
  /\ (forall rest,
        classify (lit "- " ++ rest)
        = Item ul [(1, take_while any_char (inline rest))])
  /\ (forall rest,
        forallb not_star rest = true ->
        classify (lit "* " ++ rest)
        = Item ul [(1, take_while any_char (inline rest))])
  /\ renderMarkdown (lit "* a" ++ nl ++ lit "- b")
      = ul_open ++ lit "<li>a</li><li>b</li>" ++ list_close ul
  /\ renderMarkdown (lit "1. a" ++ nl ++ lit "2. b")
      = ol_open ++ lit "<li>a</li><li>b</li>" ++ list_close ol
  /\ (forall pre a b t t',
        t <> t' ->
        line_kind a = Some (KList t) ->
        line_kind b = Some (KList t') ->
        listType (run init (pre ++ [a])) = Some t
        /\ step (run init (pre ++ [a])) b
           = mkState
               (html (run init (pre ++ [a]))
                ++ list_close t ++ list_open t' ++ item_html b)
               (Some t') []).
Proof.
  split; [|split; [|split; [|split; [|split; [|split; [|split; [|split]]]]]]].
  - intros text pre l ls post t Hsplit Hall Hpre Hpost.
    rewrite renderMarkdown_lines, Hsplit.
    rewrite (render_lines_run (KList t) pre _ _ post Hall Hpre Hpost).
    now rewrite (render_lines_items _ _ _ Hall).
  - exact line_kind_spec.
  - exact item_html_spec.
  - exact classify_line_marker.
  - exact classify_dash.
  - exact classify_star.
  - vm_compute. reflexivity.
  - vm_compute. reflexivity.
  - exact step_switch.
Qed.

(** A text of four lines, whose second and third are the ordered items. *)
Lemma C1_list_runs_witness :
  renderMarkdown
    (lit "x" ++ nl ++ lit "1. a" ++ nl ++ lit "2. b" ++ nl ++ lit "- c")
  = render_lines [lit "x"]
    ++ (list_open ol ++ flat_map item_html [lit "1. a"; lit "2. b"]
        ++ list_close ol)
    ++ render_lines [lit "- c"].
Proof.
  apply (proj1 C1_list_runs _ [lit "x"] (lit "1. a") [lit "2. b"] [lit "- c"] ol).
  - vm_compute. reflexivity.
  - repeat constructor; vm_compute; reflexivity.
  - vm_compute. discriminate.
  - vm_compute. discriminate.
Defined.

(** Claim C1 as it is written fails on the line ["* a*"]: it starts with
    ["* "], and the emphasis substitution takes its marker, so that it is a
    paragraph, while ["- a*"] is an unordered list. *)
Lemma C1_star_line_is_paragraph :
  firstn 2 (lit "* a*") = lit "* "
  /\ inline (lit "* a*") = lit "<em> a</em>"
  /\ line_kind (lit "* a*") = Some KPara
  /\ renderMarkdown (lit "* a*") = p_open ++ lit "<em> a</em>" ++ p_close
  /\ renderMarkdown (lit "- a*") = ul_open ++ lit "<li>a*</li>" ++ list_close ul.
Proof. vm_compute. repeat split; reflexivity. Qed.

(** Claim C2.  A plain line (not a list item, and not blank after the
    inline substitutions) is appended to the paragraph buffer, after a line
    break when the buffer is not empty; a blank line flushes the buffer,
    which is written as one paragraph block.  For every text, a run of
    consecutive plain lines that no plain line precedes or follows is
    rendered as one paragraph block, its lines joined by line breaks.
    ["a\nb"] is one paragraph, ["a\n\nb"] is two. *)
Theorem C2_paragraphs :
  (forall st rawLine,
      line_kind rawLine = Some KPara ->
      paraBuffer (step st rawLine)
      = paraBuffer st ++ (if truthy (paraBuffer st) then br else [])
        ++ inline rawLine)
  /\ (forall h buffer rawLine,
        line_kind rawLine = None -> buffer <> [] ->
        step (mkState h None buffer) rawLine
        = mkState (h ++ p_open ++ buffer ++ p_close) None [])
  /\ (forall rawLine,
        (line_kind rawLine = Some KPara
         <-> ol_item (inline rawLine) = None /\ ul_item (inline rawLine) = None
             /\ trim (inline rawLine) <> [])
        /\ (line_kind rawLine = None
            <-> ol_item (inline rawLine) = None
                /\ ul_item (inline rawLine) = None
                /\ trim (inline rawLine) = []))
  /\ (forall text pre l ls post,
        split_lines text = pre ++ (l :: ls) ++ post ->
        Forall (fun x => line_kind x = Some KPara) (l :: ls) ->
        last_kind pre <> Some KPara ->
        head_kind post <> Some KPara ->
        renderMarkdown text
        = render_lines pre
          ++ (p_open ++ join br (map inline (l :: ls)) ++ p_close)
          ++ render_lines post)
  /\ renderMarkdown (lit "a" ++ nl ++ lit "b")
      = p_open ++ lit "a" ++ br ++ lit "b" ++ p_close
  /\ renderMarkdown (lit "a" ++ nl ++ nl ++ lit "b")
      = (p_open ++ lit "a" ++ p_close) ++ (p_open ++ lit "b" ++ p_close).
Proof.
  split; [|split; [|split; [|split; [|split]]]].
  - intros st rawLine Hk. now rewrite (step_plain st _ Hk).
  - intros h buffer rawLine Hk Hb. rewrite (step_blank _ _ Hk).
    destruct buffer; [congruence|]. reflexivity.
  - intros rawLine. rewrite line_kind_spec, <- trim_blank.
    destruct (ol_item _), (ul_item _), (trim (inline rawLine));
      split; (split; [intros H|intros [H1 [H2 H3]]]);
      try discriminate; try congruence; repeat split; congruence.
  - intros text pre l ls post Hsplit Hall Hpre Hpost.
    rewrite renderMarkdown_lines, Hsplit.
    rewrite (render_lines_run KPara pre _ _ post Hall Hpre Hpost).
    now rewrite (render_lines_plain _ _ Hall).
  - vm_compute. reflexivity.
  - vm_compute. reflexivity.
Qed.

(** A text of four lines, whose second and third are the plain lines. *)
Lemma C2_paragraphs_witness :
  renderMarkdown (lit "- x" ++ nl ++ lit "a" ++ nl ++ lit "b" ++ nl ++ lit "")
  = render_lines [lit "- x"]
    ++ (p_open ++ join br (map inline [lit "a"; lit "b"]) ++ p_close)
    ++ render_lines [lit ""].
Proof.
  apply (proj1 (proj2 (proj2 (proj2 C2_paragraphs)))
           _ [lit "- x"] (lit "a") [lit "b"] [lit ""]).
  - vm_compute. reflexivity.
  - repeat constructor; vm_compute; reflexivity.
  - vm_compute. discriminate.
  - vm_compute. discriminate.
Defined.

(** Claim C3.  At every point of the pass, no list is open while a
    paragraph is pending.  A list-item line writes the pending paragraph,
    if there is one, before anything of the list, and leaves the buffer
    empty; a line that is not a list item, met while a list is open, closes
    the list before it is looked at as blank or plain.  The output is the
    blocks of the text one after another, each a paragraph or a list of
    entries and nothing else. *)
Theorem C3_list_and_paragraph_exclusive :
  (forall lines, exclusive (run init lines))
  /\ (forall st rawLine t,
        line_kind rawLine = Some (KList t) ->
        paraBuffer (step st rawLine) = []
        /\ listType (step st rawLine) = Some t
        /\ html (step st rawLine)
           = html (flushPara st)
             ++ (if listType_differs st t
                 then match listType st with
                      | Some t' => list_close t'
                      | None => []
                      end ++ list_open t
                 else [])
             ++ item_html rawLine)
  /\ (forall h t buffer rawLine,
        line_kind rawLine = None \/ line_kind rawLine = Some KPara ->
        step (mkState h (Some t) buffer) rawLine
        = step (mkState (h ++ list_close t) None buffer) rawLine
        /\ listType (step (mkState h (Some t) buffer) rawLine) = None)
  /\ (forall text, renderMarkdown text = blocks_html (blocks text)).
Proof.
  split; [|split; [|split]].
  - exact exclusive_run.
  - intros st rawLine t Hk. now rewrite (step_item st _ _ Hk).
  - intros h t buffer rawLine [Hk|Hk].
    + rewrite !(step_blank _ _ Hk). split; [reflexivity|].
      unfold flushPara, flushList; simpl. now destruct buffer.
    + rewrite !(step_plain _ _ Hk). now split.
  - exact renderMarkdown_blocks.
Qed.

(** A list item met while the paragraph [p] is pending. *)
Lemma C3_list_and_paragraph_exclusive_witness :
  paraBuffer (step (mkState [] None (lit "p")) (lit "- x")) = []
  /\ listType (step (mkState [] None (lit "p")) (lit "- x")) = Some ul
  /\ html (step (mkState [] None (lit "p")) (lit "- x"))
     = html (flushPara (mkState [] None (lit "p")))
       ++ (if listType_differs (mkState [] None (lit "p")) ul
           then match listType (mkState [] None (lit "p")) with
                | Some t' => list_close t'
                | None => []
                end ++ list_open ul
           else [])
       ++ item_html (lit "- x").
Proof.
  apply (proj1 (proj2 C3_list_and_paragraph_exclusive)).
  vm_compute. reflexivity.
Defined.

Lemma split_lines_one (s : jsstring) :
  forallb any_char s = true -> split_lines s = [s].
Proof.
  induction s as [|c s IH]; [reflexivity|]. simpl. intros H.
  apply andb_true_iff in H as [Hc Hs]. rewrite (IH Hs).
  unfold any_char, is_line_terminator in Hc.
  destruct (N.eqb_spec c LF) as [->|]; [discriminate|reflexivity].
Qed.

(** A line that starts with anything but a blank, a digit or a list marker
    is plain. *)
Lemma classify_line_plain c r :
  is_space c = false -> is_digit c = false -> dash_or_star c = false ->
  classify_line (c :: r) = Plain (c :: r).
Proof.
  intros Hs Hd Hm. rewrite classify_line_items. unfold ol_item, ul_item.
  simpl drop_while. rewrite Hs, Hd.
  assert (Hul : match r with
                | [] => None
                | w :: rest =>
                    if dash_or_star c && is_space w
                    then Some (take_while any_char rest) else None
                end = None)
    by (destruct r; [reflexivity|now rewrite Hm]).
  destruct r as [|w rest]; [|rewrite Hm; simpl];
    (destruct (trim _) eqn:E; [|reflexivity];
     apply trim_nil_iff in E; simpl in E; rewrite Hs in E; discriminate).
Qed.

(** A text of one plain line is one paragraph of that line. *)
Lemma render_one_plain (rawLine : jsstring) c r :
  forallb any_char rawLine = true ->
  inline rawLine = c :: r ->
  is_space c = false -> is_digit c = false -> dash_or_star c = false ->
  renderMarkdown rawLine = p_open ++ inline rawLine ++ p_close.
Proof.
  intros Hany Hin Hs Hd Hm.
  rewrite renderMarkdown_lines, (split_lines_one _ Hany).
  rewrite (render_lines_plain rawLine []); [reflexivity|].
  constructor; [|constructor].
  unfold line_kind, classify. now rewrite Hin, classify_line_plain.
Qed.

Lemma any_char_wrapped a x b :
  forallb any_char a = true -> plain_text x = true ->
  forallb any_char b = true ->
  forallb any_char (a ++ x ++ b) = true.
Proof.
  intros Ha Hx Hb. rewrite !forallb_app, Ha, Hb.
  now rewrite (forallb_weaken plain_char any_char x plain_char_any Hx).
Qed.

(** Marked text alone on a line, for every text [x] without a marker and
    without a line terminator. *)
Lemma render_marked x :
  plain_text x = true ->
  renderMarkdown (lit "**" ++ x ++ lit "**")
  = p_open ++ (lit "<strong>" ++ x ++ lit "</strong>") ++ p_close
  /\ renderMarkdown (lit "__" ++ x ++ lit "__")
     = p_open ++ (lit "<strong>" ++ x ++ lit "</strong>") ++ p_close
  /\ renderMarkdown (lit "*" ++ x ++ lit "*")
     = p_open ++ (lit "<em>" ++ x ++ lit "</em>") ++ p_close
  /\ renderMarkdown (lit "_" ++ x ++ lit "_")
     = p_open ++ (lit "<em>" ++ x ++ lit "</em>") ++ p_close.
Proof.
  intros Hx. repeat split.
  - rewrite <- (inline_bold_star x Hx).
    eapply render_one_plain;
      [now apply any_char_wrapped|apply (inline_bold_star x Hx)
      |reflexivity..].
  - rewrite <- (inline_bold_underscore x Hx).
    eapply render_one_plain;
      [now apply any_char_wrapped|apply (inline_bold_underscore x Hx)
      |reflexivity..].
  - rewrite <- (inline_em_star x Hx).
    eapply render_one_plain;
      [now apply any_char_wrapped|apply (inline_em_star x Hx)
      |reflexivity..].
  - rewrite <- (inline_em_underscore x Hx).
    eapply render_one_plain;
      [now apply any_char_wrapped|apply (inline_em_underscore x Hx)
      |reflexivity..].
Qed.

Lemma render_code y x :
  plain_text (y :: x) = true ->
  renderMarkdown (lit "`" ++ (y :: x) ++ lit "`")
  = p_open ++ (code_open ++ (y :: x) ++ lit "</code>") ++ p_close.
Proof.
  intros Hx. rewrite <- (inline_code y x Hx).
  eapply render_one_plain;
    [now apply any_char_wrapped|apply (inline_code y x Hx)|reflexivity..].
Qed.

(** Claim C4.  The line that the loop body classifies and writes is the raw
    line after three replaces, each with the [g] flag and each over the
    whole line: bold, then emphasis, then code.  ["**bold**"] gives
    [<strong>bold</strong>], ["*em*"] gives [<em>em</em>], and a code span
    gives [<code ...>code</code>]; every occurrence on a line is replaced;
    with the emphasis replace first, ["**bold**"] would come out
    otherwise.  The same holds for every text without a marker and without
    a line terminator in the place of [bold], [em] and [code], and a line
    without a marker is left as it is. *)
Theorem C4_inline_substitutions :
  (forall rawLine,
      inline rawLine
      = replace re_code tpl_code
          (replace re_em tpl_em (replace re_bold tpl_bold rawLine)))
  /\ (forall st rawLine,
        step st rawLine = step_class st (classify_line (inline rawLine)))
  /\ renderMarkdown (lit "**bold**")
      = p_open ++ lit "<strong>bold</strong>" ++ p_close
  /\ renderMarkdown (lit "__bold__")
      = p_open ++ lit "<strong>bold</strong>" ++ p_close
  /\ renderMarkdown (lit "*em*") = p_open ++ lit "<em>em</em>" ++ p_close
  /\ renderMarkdown (lit "_em_") = p_open ++ lit "<em>em</em>" ++ p_close
  /\ renderMarkdown (lit "`code`")
      = p_open ++ code_open ++ lit "code</code>" ++ p_close
  /\ inline (lit "**a** *b* `c` **d** *e* `f`")
      = lit "<strong>a</strong> <em>b</em> " ++ code_open ++ lit "c</code> "
        ++ lit "<strong>d</strong> <em>e</em> " ++ code_open ++ lit "f</code>"
  /\ replace_code (replace_bold (replace_em (lit "**bold**")))
      = lit "<em></em>bold<em></em>"
  /\ (forall x,
        plain_text x = true ->
        renderMarkdown (lit "**" ++ x ++ lit "**")
        = p_open ++ (lit "<strong>" ++ x ++ lit "</strong>") ++ p_close
        /\ renderMarkdown (lit "__" ++ x ++ lit "__")
           = p_open ++ (lit "<strong>" ++ x ++ lit "</strong>") ++ p_close
        /\ renderMarkdown (lit "*" ++ x ++ lit "*")
           = p_open ++ (lit "<em>" ++ x ++ lit "</em>") ++ p_close
        /\ renderMarkdown (lit "_" ++ x ++ lit "_")
           = p_open ++ (lit "<em>" ++ x ++ lit "</em>") ++ p_close)
  /\ (forall y x,
        plain_text (y :: x) = true ->
        renderMarkdown (lit "`" ++ (y :: x) ++ lit "`")
        = p_open ++ (code_open ++ (y :: x) ++ lit "</code>") ++ p_close)
  /\ (forall x, forallb no_marker x = true -> inline x = x).
Proof.
  split; [reflexivity|]. split; [exact step_classify|].
  repeat (split; [vm_compute; reflexivity|]).
  split; [exact render_marked|]. split; [exact render_code|].
  exact inline_untouched.
Qed.

(** The text [ab], marked as bold. *)
Lemma C4_inline_substitutions_witness :
  renderMarkdown (lit "**" ++ lit "ab" ++ lit "**")
  = p_open ++ (lit "<strong>" ++ lit "ab" ++ lit "</strong>") ++ p_close.
Proof.
  apply (proj1 (proj2 (proj2 (proj2 (proj2 (proj2 (proj2 (proj2 (proj2 (proj2
           C4_inline_substitutions))))))))) (lit "ab")).
  reflexivity.
Defined.

End Renderer.

(** ** The suggestion rotator *)

Section RotatorFacts.

Import Rotator.

Lemma mount_running q qs : mount (q :: qs) = running (q :: qs) 0.
Proof. reflexivity. Qed.

Lemma tick_running qs i :
  tick 0 (running qs i) = running qs ((i + 1) mod length qs).
Proof. reflexivity. Qed.

Lemma ticks_running qs n : forall i,
  ticks n (running qs i) = running qs ((i + n) mod length qs) \/ n = 0.
Proof.
  induction n as [|n IH]; intros i; [now right|left].
  change (ticks (S n) (running qs i)) with (ticks n (tick 0 (running qs i))).
  rewrite tick_running.
  destruct (IH ((i + 1) mod length qs)) as [H| ->].
  - rewrite H. f_equal.
    destruct (length qs) as [|len] eqn:E.
    + simpl. lia.
    + rewrite Nat.Div0.add_mod_idemp_l. f_equal. lia.
  - reflexivity.
Qed.

Lemma ticks_mount q qs n :
  ticks n (mount (q :: qs)) = running (q :: qs) (n mod length (q :: qs)).
Proof.
  rewrite mount_running.
  destruct (ticks_running (q :: qs) n 0) as [H| ->]; [exact H|].
  simpl ticks. now rewrite Nat.Div0.mod_0_l.
Qed.

Lemma clearInterval_single id cl : clearInterval id [(id, cl)] = [].
Proof. unfold clearInterval. simpl. now rewrite Nat.eqb_refl. Qed.

Lemma run_cleanup_tidy c :
  tidy c -> intervals (run_cleanup c) = [] /\ cleanup (run_cleanup c) = None.
Proof.
  destruct c as [cur tbl nid [id|] m]; unfold tidy, run_cleanup;
    cbn [cleanup intervals mounted nextId].
  - intros [_ [_ [cl ->]]]. now rewrite clearInterval_single.
  - now split.
Qed.

Lemma tidy_effect qs c :
  intervals c = [] -> mounted c = true -> tidy (effect qs c).
Proof.
  intros Hi Hm. unfold effect, tidy.
  destruct (Nat.eqb (length qs) 0); simpl; [assumption|].
  rewrite Hi. repeat split; [assumption|lia|]. now eexists.
Qed.

Lemma tidy_tick id c : tidy c -> tidy (tick id c).
Proof.
  unfold tidy, tick. destruct (cleanup c) as [id0|] eqn:E.
  - intros [Hm [Hlt [cl Hi]]]. rewrite Hi. simpl.
    destruct (Nat.eqb id0 id); simpl; rewrite ?E, ?Hi; eauto 6.
  - intros Hi. rewrite Hi. simpl. now rewrite E.
Qed.

Lemma tidy_handle c e : tidy c -> tidy (handle c e).
Proof.
  intros Ht. destruct e as [qs|id|]; simpl.
  - destruct (mounted c) eqn:Hm; [|assumption].
    destruct (run_cleanup_tidy c Ht) as [Hi Hc].
    apply tidy_effect; [assumption|].
    unfold run_cleanup. destruct (cleanup c); assumption.
  - now apply tidy_tick.
  - destruct (run_cleanup_tidy c Ht) as [Hi Hc]. unfold tidy. simpl.
    now rewrite Hc.
Qed.

Lemma tidy_mount qs : tidy (mount qs).
Proof. now apply tidy_effect. Qed.

Lemma tidy_handle_all es : forall c, tidy c -> tidy (handle_all c es).
Proof.
  induction es as [|e es IH]; intros c Ht; [assumption|].
  simpl. apply IH. now apply tidy_handle.
Qed.

Lemma tidy_unmounted c :
  tidy c -> mounted c = false -> cleanup c = None /\ intervals c = [].
Proof.
  unfold tidy. destruct (cleanup c) as [id|].
  - intros [Hm _] Hf. congruence.
  - now split.
Qed.

(** Once unmounted, the component is the same after every event. *)
Lemma unmounted_handle c e :
  tidy c -> mounted c = false -> handle c e = c.
Proof.
  intros Ht Hm. destruct (tidy_unmounted c Ht Hm) as [Hc Hi].
  destruct c as [cur tbl nid cl m]. simpl in *. subst.
  destruct e as [qs|id|]; reflexivity.
Qed.

Lemma unmounted_handle_all es : forall c,
  tidy c -> mounted c = false -> handle_all c es = c.
Proof.
  induction es as [|e es IH]; intros c Ht Hm; [reflexivity|].
  simpl. rewrite (unmounted_handle c e Ht Hm). now apply IH.
Qed.

(** Claim C6.  After any sequence of renders with a new list, ticks and an
    unmount, the component holds at most one interval, and its cleanup
    clears every interval it holds.  A render with a new list runs that
    cleanup before the effect: the interval of the effect is then the only
    one, under an id no earlier interval had, its index is 0 and the
    current suggestion is the first element of the new list (the empty
    string, and no interval, when the new list is empty).  After the
    unmount no interval is left, and no later event changes anything. *)
Theorem C6_one_timer (qs : list jsstring) (es : list event) :
  let c := handle_all (mount qs) es in
  length (intervals c) <= 1
  /\ intervals (run_cleanup c) = []
  /\ (forall qs', handle c (Render qs')
                  = if mounted c then effect qs' (run_cleanup c) else c)
  /\ (mounted c = true ->
      forall q' qs',
        currentSuggestion (handle c (Render (q' :: qs'))) = Some q'
        /\ intervals (handle c (Render (q' :: qs')))
           = [(nextId c, mkClosure (q' :: qs') 0)]
        /\ ~ In (nextId c) (map fst (intervals c)))
  /\ (mounted c = true ->
      currentSuggestion (handle c (Render [])) = Some []
      /\ intervals (handle c (Render [])) = [])
  /\ intervals (handle c Unmount) = []
  /\ (forall es', handle_all (handle c Unmount) es' = handle c Unmount)
  /\ (mounted c = false ->
      intervals c = [] /\ forall es', handle_all c es' = c).
Proof.
  intros c.
  assert (Ht : tidy c) by (apply tidy_handle_all, tidy_mount).
  destruct (run_cleanup_tidy c Ht) as [Hi Hc].
  repeat split.
  - unfold tidy in Ht. destruct (cleanup c).
    + destruct Ht as [_ [_ [cl ->]]]. simpl. lia.
    + rewrite Ht. simpl. lia.
  - assumption.
  - simpl. rewrite H. reflexivity.
  - simpl. rewrite H. unfold effect. simpl. rewrite Hi.
    unfold run_cleanup. destruct (cleanup c); reflexivity.
  - unfold tidy in Ht. destruct (cleanup c) as [id|].
    + destruct Ht as [_ [Hlt [cl ->]]]. simpl. lia.
    + rewrite Ht. simpl. tauto.
  - simpl. rewrite H. reflexivity.
  - simpl. rewrite H. unfold effect. simpl. assumption.
  - simpl. assumption.
  - intros es'. apply unmounted_handle_all; [|reflexivity].
    now apply tidy_handle.
  - now apply tidy_unmounted.
  - intros es'. now apply unmounted_handle_all.
Qed.

(** A new list [y] after one tick on the list [x]. *)
Lemma C6_one_timer_witness :
  currentSuggestion
    (handle (handle_all (mount [lit "x"]) [Tick 0]) (Render [lit "y"]))
  = Some (lit "y")
  /\ intervals
       (handle (handle_all (mount [lit "x"]) [Tick 0]) (Render [lit "y"]))
     = [(nextId (handle_all (mount [lit "x"]) [Tick 0]),
         mkClosure [lit "y"] 0)]
  /\ ~ In (nextId (handle_all (mount [lit "x"]) [Tick 0]))
         (map fst (intervals (handle_all (mount [lit "x"]) [Tick 0]))).
Proof.
  apply (proj1 (proj2 (proj2 (proj2 (C6_one_timer [lit "x"] [Tick 0]))))).
  reflexivity.
Defined.

Lemma run_cleanup_keeps c :
  nextId (run_cleanup c) = nextId c /\ mounted (run_cleanup c) = mounted c
  /\ currentSuggestion (run_cleanup c) = currentSuggestion c.
Proof. unfold run_cleanup. destruct (cleanup c); now repeat split. Qed.

(** A render with the empty list, from a component that holds no interval
    but the one its cleanup clears. *)
Lemma render_empty c :
  tidy c -> mounted c = true ->
  handle c (Render [])
  = mkComponent (Some []) [] (nextId c) None true.
Proof.
  intros Ht Hm. destruct (run_cleanup_tidy c Ht) as [Hi _].
  destruct (run_cleanup_keeps c) as [Hn [Hmm _]].
  simpl. rewrite Hm. unfold effect. simpl. now rewrite Hi, Hn, Hmm, Hm.
Qed.

Lemma ticks_no_interval n c : cleanup c = None -> ticks n c = c.
Proof. intros H. destruct n; simpl; [reflexivity|now rewrite H]. Qed.

Lemma tick_no_interval id c : intervals c = [] -> tick id c = c.
Proof. intros H. unfold tick. now rewrite H. Qed.

Lemma tick_events_no_interval ids : forall c,
  intervals c = [] -> handle_all c (map Tick ids) = c.
Proof.
  induction ids as [|id ids IH]; intros c H; [reflexivity|].
  simpl. rewrite (tick_no_interval id c H). now apply IH.
Qed.

End RotatorFacts.

(** ** The input form *)

Section FormFacts.

Import Form.

(** Claim C8.  [handleSubmit] calls [onSendMessage], once and with the
    query, exactly when the query is not empty after [trim]; on a query
    that is empty or all blanks it calls nothing and leaves the query as it
    is. *)
Theorem C8_submit (q : jsstring) :
  (sent (handleSubmit q) = [q] <-> trim q <> [])
  /\ (sent (handleSubmit q) = [] <-> trim q = [])
  /\ (trim q = [] <-> forallb is_space q = true)
  /\ (forallb is_space q = true -> handleSubmit q = mkOutcome true [] q)
  /\ (forallb is_space q = false -> handleSubmit q = mkOutcome true [q] []).
Proof.
  pose proof (trim_nil_iff q) as Hq. unfold handleSubmit.
  destruct (trim q) as [|x r] eqn:E; simpl.
  - repeat split; try congruence; try tauto.
    intros H. destruct Hq as [Hq _]. rewrite Hq in H; congruence.
  - repeat split; try congruence; try tauto; try discriminate.
    intros H. destruct Hq as [_ Hq]. now apply Hq in H.
Qed.

(** A query of two spaces. *)
Lemma C8_submit_witness :
  handleSubmit (lit "  ") = mkOutcome true [] (lit "  ").
Proof.
  apply (proj1 (proj2 (proj2 (proj2 (C8_submit (lit "  ")))))).
  reflexivity.
Defined.

End FormFacts.

(** ** The conversation view *)

Section ViewFacts.

Import View.

Lemma message_view_normal m :
  (exists b, message_view m = Normal b) <-> parts m <> [].
Proof.
  unfold message_view, first_part_text. destruct (parts m) as [|p ps]; simpl.
  - split; [intros [b H]; discriminate|congruence].
  - split; [discriminate|]. intros _. now eexists.
Qed.

Lemma history_view_normal history :
  (exists bs, history_view history = Normal bs)
  <-> Forall (fun m => parts m <> []) history.
Proof.
  induction history as [|m rest IH]; simpl.
  - split; [constructor|]. intros _. now eexists.
  - split.
    + intros [bs H]. destruct (message_view m) as [b|] eqn:Em; [|discriminate].
      destruct (history_view rest) as [bs'|] eqn:Er; [|discriminate].
      constructor.
      * apply message_view_normal. now exists b.
      * apply IH. now exists bs'.
    + intros H. inversion H as [|? ? Hm Hrest]; subst.
      apply message_view_normal in Hm as [b ->].
      apply IH in Hrest as [bs ->]. now eexists.
Qed.

Lemma history_view_throw before : forall m after,
  parts m = [] -> history_view (before ++ m :: after) = Throw_TypeError.
Proof.
  induction before as [|m0 before IH]; intros m after Hm; simpl.
  - unfold message_view, first_part_text. now rewrite Hm.
  - destruct (message_view m0); [|reflexivity]. now rewrite IH.
Qed.

(** Claim C10.  The view reads the text of the first part of every message
    with no test on the parts: on a message without parts the read throws,
    and the render of a history throws as soon as one message has no part;
    the render of a history completes exactly when every message has a
    part, and the body of each bubble is then the markup of the text of
    its first part. *)
Theorem C10_first_part_required :
  (forall m, parts m = [] -> message_view m = Throw_TypeError)
  /\ (forall before m after,
        parts m = [] ->
        history_view (before ++ m :: after) = Throw_TypeError)
  /\ (forall history,
        (exists bs, history_view history = Normal bs)
        <-> Forall (fun m => parts m <> []) history)
  /\ (forall m p ps b,
        parts m = p :: ps -> message_view m = Normal b ->
        body b = renderMarkdown (text p)).
Proof.
  split; [|split; [|split]].
  - intros m Hm. unfold message_view, first_part_text. now rewrite Hm.
  - exact history_view_throw.
  - exact history_view_normal.
  - intros m p ps b Hm. unfold message_view, first_part_text. rewrite Hm.
    simpl. now intros [= <-].
Qed.

(** A history whose second message has no part. *)
Lemma C10_first_part_required_witness :
  history_view
    ([mkMessage user [mkPart (lit "a")] None] ++ mkMessage model [] None :: [])
  = Throw_TypeError.
Proof.
  apply (proj1 (proj2 C10_first_part_required)). reflexivity.
Defined.

End ViewFacts.

(** ** More on the inline substitutions *)

Section InlineMore.

Lemma no_start_emphasis c : no_marker c = true -> emphasis_marker c = false.
Proof. intros H. now apply negb_true_iff, no_marker_emphasis. Qed.

Lemma space_no_marker c : is_space c = true -> no_marker c = true.
Proof.
  unfold no_marker, emphasis_marker, not_backtick, is_char. simpl N_of_ascii.
  intros H.
  destruct (N.eqb_spec c 42); [subst; discriminate|].
  destruct (N.eqb_spec c 95); [subst; discriminate|].
  destruct (N.eqb_spec c 96); [subst; discriminate|]. reflexivity.
Qed.

Lemma digit_no_marker c : is_digit c = true -> no_marker c = true.
Proof.
  unfold no_marker, emphasis_marker, not_backtick, is_char. simpl N_of_ascii.
  intros H.
  destruct (N.eqb_spec c 42); [subst; discriminate|].
  destruct (N.eqb_spec c 95); [subst; discriminate|].
  destruct (N.eqb_spec c 96); [subst; discriminate|]. reflexivity.
Qed.


Lemma replace_bold_app (a rest : jsstring) :
  forallb no_marker a = true -> replace_bold (a ++ rest) = a ++ replace_bold rest.
Proof.
  intros Ha. apply (replace_no_start emphasis_marker re_bold tpl_bold eq_refl
                      bold_no_start).
  apply (forallb_weaken no_marker); [apply no_marker_emphasis|exact Ha].
Qed.

Lemma replace_em_app (a rest : jsstring) :
  forallb no_marker a = true -> replace_em (a ++ rest) = a ++ replace_em rest.
Proof.
  intros Ha. apply (replace_no_start emphasis_marker re_em tpl_em eq_refl
                      em_no_start).
  apply (forallb_weaken no_marker); [apply no_marker_emphasis|exact Ha].
Qed.

Lemma replace_code_app (a rest : jsstring) :
  forallb no_marker a = true -> replace_code (a ++ rest) = a ++ replace_code rest.
Proof.
  intros Ha. apply (replace_no_start (is_char "`") re_code tpl_code eq_refl
                      code_no_start).
  apply (forallb_weaken no_marker); [apply no_marker_backtick|exact Ha].
Qed.

Lemma inline_app (a rest : jsstring) :
  forallb no_marker a = true -> inline (a ++ rest) = a ++ inline rest.
Proof.
  intros Ha. unfold inline.
  now rewrite replace_bold_app, replace_em_app, replace_code_app.
Qed.

(** X5.  The text of a line before its first marker ([*], [_] or a
    backtick) is kept as it is by each of the three replaces, and so by
    their chain, whatever follows. *)
Theorem inline_prefix (a rest : jsstring) :
  forallb no_marker a = true ->
  replace_bold (a ++ rest) = a ++ replace_bold rest
  /\ replace_em (a ++ rest) = a ++ replace_em rest
  /\ replace_code (a ++ rest) = a ++ replace_code rest
  /\ inline (a ++ rest) = a ++ inline rest.
Proof.
  intros Ha. repeat split.
  - now apply replace_bold_app.
  - now apply replace_em_app.
  - now apply replace_code_app.
  - now apply inline_app.
Qed.

Lemma inline_prefix_witness :
  replace_bold (lit "1. " ++ lit "*a*") = lit "1. " ++ replace_bold (lit "*a*")
  /\ replace_em (lit "1. " ++ lit "*a*") = lit "1. " ++ replace_em (lit "*a*")
  /\ replace_code (lit "1. " ++ lit "*a*")
     = lit "1. " ++ replace_code (lit "*a*")
  /\ inline (lit "1. " ++ lit "*a*") = lit "1. " ++ inline (lit "*a*").
Proof. apply (inline_prefix (lit "1. ") (lit "*a*")). reflexivity. Defined.


Lemma digit_not_space c : is_digit c = true -> is_space c = false.
Proof.
  intros H. destruct (is_space c) eqn:E; [|reflexivity].
  apply space_not_digit in E. congruence.
Qed.

(** X6.  A line that starts with blanks, digits, a period and a blank is an
    ordered item, and a line that starts with blanks, a dash and a blank is
    an unordered item, whatever markers the rest of the line holds; the
    entry is the rest of the line after the inline substitutions, up to its
    first line terminator. *)
Theorem list_markers_survive (sp ds rest : jsstring) (d w : char) :
  forallb is_space sp = true ->
  forallb is_digit (d :: ds) = true ->
  is_space w = true ->
  classify (sp ++ (d :: ds) ++ lit "." ++ w :: rest)
  = Item ol [(1, take_while any_char (inline rest))]
  /\ classify (sp ++ lit "-" ++ w :: rest)
     = Item ul [(1, take_while any_char (inline rest))].
Proof.
  intros Hsp Hds Hw.
  assert (Hsp' : forallb no_marker sp = true)
    by (apply (forallb_weaken is_space); [apply space_no_marker|exact Hsp]).
  assert (Hds' : forallb no_marker (d :: ds) = true)
    by (apply (forallb_weaken is_digit); [apply digit_no_marker|exact Hds]).
  pose proof (space_no_marker w Hw) as Hw'.
  simpl in Hds. apply andb_true_iff in Hds as [Hd Hds].
  split; unfold classify.
  - replace (sp ++ (d :: ds) ++ lit "." ++ w :: rest)
      with ((sp ++ (d :: ds) ++ lit "." ++ [w]) ++ rest)
      by (now rewrite <- !app_assoc).
    rewrite inline_app
      by (rewrite !forallb_app, Hsp', Hds'; simpl; now rewrite Hw').
    rewrite classify_line_items. unfold ol_item.
    replace ((sp ++ (d :: ds) ++ lit "." ++ [w]) ++ inline rest)
      with (sp ++ d :: (ds ++ N_of_ascii "." :: w :: inline rest))
      by (now rewrite <- !app_assoc).
    rewrite (drop_while_stop is_space sp d _ Hsp (digit_not_space d Hd)), Hd.
    rewrite (drop_while_stop is_digit ds (N_of_ascii ".") _ Hds eq_refl).
    change (is_char "." (N_of_ascii ".")) with true. now rewrite Hw.
  - replace (sp ++ lit "-" ++ w :: rest)
      with ((sp ++ lit "-" ++ [w]) ++ rest) by (now rewrite <- !app_assoc).
    rewrite inline_app
      by (rewrite !forallb_app, Hsp'; simpl; now rewrite Hw').
    rewrite classify_line_items. unfold ol_item, ul_item.
    replace ((sp ++ lit "-" ++ [w]) ++ inline rest)
      with (sp ++ N_of_ascii "-" :: w :: inline rest)
      by (now rewrite <- !app_assoc).
    rewrite (drop_while_stop is_space sp (N_of_ascii "-") _ Hsp eq_refl).
    change (is_digit (N_of_ascii "-")) with false.
    change (dash_or_star (N_of_ascii "-")) with true. now rewrite Hw.
Qed.

Lemma list_markers_survive_witness :
  classify (lit "  " ++ lit "12" ++ lit "." ++ N_of_ascii " " :: lit "*a* b*")
  = Item ol [(1, take_while any_char (inline (lit "*a* b*")))]
  /\ classify (lit "  " ++ lit "-" ++ N_of_ascii " " :: lit "*a* b*")
     = Item ul [(1, take_while any_char (inline (lit "*a* b*")))].
Proof.
  apply (list_markers_survive (lit "  ") (lit "2") (lit "*a* b*")
           (N_of_ascii "1") (N_of_ascii " ")); reflexivity.
Defined.

Lemma split_lines_no_lf (s : jsstring) : no_lf s = true -> split_lines s = [s].
Proof.
  unfold no_lf. induction s as [|c s IH]; [reflexivity|]. simpl. intros H.
  apply andb_true_iff in H as [Hc Hs]. rewrite (IH Hs).
  apply negb_true_iff in Hc. now rewrite Hc.
Qed.





(** X8.  Nothing is escaped: a one-line text without a marker, which does
    not start with a blank, a digit or a dash, is written between the
    paragraph tags as it is, markup included. *)
Theorem render_verbatim (c : char) (r : jsstring) :
  forallb no_marker (c :: r) = true ->
  no_lf (c :: r) = true ->
  is_space c = false -> is_digit c = false -> is_char "-" c = false ->
  renderMarkdown (c :: r) = p_open ++ (c :: r) ++ p_close.
Proof.
  intros Hm Hlf Hs Hd Hdash.
  assert (Hstar : dash_or_star c = false).
  { unfold dash_or_star. rewrite Hdash, orb_false_r.
    simpl in Hm. apply andb_true_iff in Hm as [Hc _].
    now apply negb_true_iff, no_marker_star. }
  rewrite renderMarkdown_lines, (split_lines_no_lf _ Hlf).
  rewrite (render_lines_plain (c :: r) []).
  - simpl map. simpl join. now rewrite (inline_untouched _ Hm).
  - constructor; [|constructor]. unfold line_kind, classify.
    now rewrite (inline_untouched _ Hm), classify_line_plain.
Qed.

Lemma render_verbatim_witness :
  renderMarkdown (lit "<script>alert(1)</script>")
  = p_open ++ lit "<script>alert(1)</script>" ++ p_close.
Proof.
  apply (render_verbatim (N_of_ascii "<") (lit "script>alert(1)</script>"));
    reflexivity.
Defined.

Lemma lazy_chr_fail (p q : char -> bool) (k : cont) :
  (forall i s c, forallb q s = true -> k i s c = None) ->
  forall s i c, forallb q s = true -> lazy_chr p k i s c = None.
Proof.
  intros Hk. induction s as [|x s' IH]; intros i c Hs; simpl.
  - now rewrite Hk.
  - rewrite (Hk _ _ _ Hs). simpl in Hs. apply andb_true_iff in Hs as [_ Hs].
    destruct (p x); [now apply IH|reflexivity].
Qed.

Lemma no_marker_head_star y s :
  forallb no_marker (y :: s) = true -> is_char "*" y = false.
Proof.
  simpl. intros H. apply andb_true_iff in H as [H _].
  now apply negb_true_iff, no_marker_star.
Qed.

Lemma no_marker_head_underscore y s :
  forallb no_marker (y :: s) = true -> is_char "_" y = false.
Proof.
  simpl. intros H. apply andb_true_iff in H as [H _].
  now apply negb_true_iff, no_marker_underscore.
Qed.

Lemma no_marker_head_backtick y s :
  forallb no_marker (y :: s) = true -> is_char "`" y = false.
Proof.
  simpl. intros H. apply andb_true_iff in H as [H _].
  now apply negb_true_iff, no_marker_backtick.
Qed.

(** The three patterns do not match at a marker that only text without a
    marker follows. *)
Lemma bold_lone m b :
  forallb no_marker b = true -> rmatch re_bold 0 (m :: b) [] accept = None.
Proof.
  intros Hb. unfold re_bold. rewrite rmatch_alt.
  unfold star at 1 2, underscore at 1 2.
  rewrite !rmatch_seq, !rmatch_chr_cons.
  destruct b as [|y b'].
  - destruct (is_char "*" m), (is_char "_" m);
      rewrite ?rmatch_seq, ?rmatch_chr_nil; reflexivity.
  - rewrite !rmatch_seq, !rmatch_chr_cons.
    rewrite (no_marker_head_star y b' Hb), (no_marker_head_underscore y b' Hb).
    destruct (is_char "*" m), (is_char "_" m); reflexivity.
Qed.

Lemma em_lone m b :
  forallb no_marker b = true -> rmatch re_em 0 (m :: b) [] accept = None.
Proof.
  intros Hb. unfold re_em. rewrite rmatch_alt.
  assert (H1 : rmatch (Seq star (Seq (Group 1 (Star false dot)) star)) 0
                 (m :: b) [] accept = None).
  { unfold star at 1. rewrite rmatch_seq, rmatch_chr_cons.
    destruct (is_char "*" m); [|reflexivity].
    rewrite rmatch_seq, rmatch_group. unfold dot. rewrite star_lazy_chr.
    apply (lazy_chr_fail any_char no_marker); [|exact Hb].
    intros i [|y s'] c Hs; [reflexivity|].
    unfold star. now rewrite rmatch_chr_cons, (no_marker_head_star y s' Hs). }
  rewrite H1.
  unfold underscore at 1. rewrite rmatch_seq, rmatch_chr_cons.
  destruct (is_char "_" m); [|reflexivity].
  rewrite rmatch_seq, rmatch_group. unfold dot. rewrite star_lazy_chr.
  apply (lazy_chr_fail any_char no_marker); [|exact Hb].
  intros i [|y s'] c Hs; [reflexivity|].
  unfold underscore.
  now rewrite rmatch_chr_cons, (no_marker_head_underscore y s' Hs).
Qed.

Lemma drop_while_all p (s : jsstring) :
  forallb p s = true -> drop_while p s = [].
Proof.
  induction s as [|x s IH]; [reflexivity|]. simpl. intros H.
  apply andb_true_iff in H as [Hx Hs]. now rewrite Hx, IH.
Qed.

Lemma code_lone m b :
  forallb no_marker b = true -> rmatch re_code 0 (m :: b) [] accept = None.
Proof.
  intros Hb. unfold re_code, backtick.
  rewrite rmatch_seq, rmatch_chr_cons.
  destruct (is_char "`" m); [|reflexivity].
  rewrite rmatch_seq, rmatch_group. unfold plus. rewrite rmatch_seq.
  destruct b as [|y b']; [reflexivity|].
  rewrite rmatch_chr_cons.
  assert (Hnb : forallb not_backtick (y :: b') = true)
    by (apply (forallb_weaken no_marker); [apply no_marker_backtick|exact Hb]).
  simpl in Hnb. apply andb_true_iff in Hnb as [Hy Hnb]. rewrite Hy.
  rewrite star_greedy_chr, greedy_chr_disjoint.
  - now rewrite (drop_while_all not_backtick b' Hnb).
  - intros i z s c Hz. rewrite rmatch_chr_cons.
    unfold not_backtick in Hz. apply negb_true_iff in Hz. now rewrite Hz.
Qed.

(** X9.  A marker without its partner is kept: on a line with one marker
    only, whichever of the three, the replaces change nothing. *)
Theorem inline_lone_marker (a b : jsstring) (m : char) :
  forallb no_marker a = true ->
  forallb no_marker b = true ->
  inline (a ++ m :: b) = a ++ m :: b.
Proof.
  intros Ha Hb. rewrite (inline_app a (m :: b) Ha). f_equal.
  unfold inline, replace_bold, replace_em, replace_code.
  rewrite (replace_cons_fail re_bold tpl_bold m b eq_refl (bold_lone m b Hb)).
  fold (replace_bold b).
  rewrite replace_bold_untouched
    by (apply (forallb_weaken no_marker); [apply no_marker_emphasis|exact Hb]).
  rewrite (replace_cons_fail re_em tpl_em m b eq_refl (em_lone m b Hb)).
  fold (replace_em b).
  rewrite replace_em_untouched
    by (apply (forallb_weaken no_marker); [apply no_marker_emphasis|exact Hb]).
  rewrite (replace_cons_fail re_code tpl_code m b eq_refl (code_lone m b Hb)).
  fold (replace_code b).
  now rewrite replace_code_untouched
    by (apply (forallb_weaken no_marker); [apply no_marker_backtick|exact Hb]).
Qed.

Lemma inline_lone_marker_witness :
  inline (lit "2 " ++ N_of_ascii "*" :: lit " 3 = 6") = lit "2 * 3 = 6".
Proof.
  apply (inline_lone_marker (lit "2 ") (lit " 3 = 6") (N_of_ascii "*"));
    reflexivity.
Defined.

End InlineMore.

(** ** More on the renderer: blank text, blank lines, order *)

Section RendererMore.

Import Contents.

Lemma split_lines_nonempty s : split_lines s <> [].
Proof.
  induction s as [|c s IH]; simpl; [discriminate|].
  destruct (c =? LF)%N; [discriminate|].
  destruct (split_lines s); [congruence|discriminate].
Qed.

Lemma split_lines_app a b :
  split_lines (a ++ LF :: b) = split_lines a ++ split_lines b.
Proof.
  induction a as [|c a IH]; simpl.
  - reflexivity.
  - destruct (c =? LF)%N; [now rewrite IH|].
    rewrite IH. pose proof (split_lines_nonempty a) as Hne.
    destruct (split_lines a); [congruence|reflexivity].
Qed.

Lemma joins_none_right a : joins a None = false.
Proof. now destruct a. Qed.

Lemma line_kind_empty : line_kind [] = None.
Proof. reflexivity. Qed.

(** An empty line between them separates the lines before from the lines
    after. *)
Lemma render_lines_empty_line la lb :
  render_lines (la ++ [] :: lb) = render_lines la ++ render_lines lb.
Proof.
  rewrite render_lines_break by apply joins_none_right.
  reflexivity.
Qed.

(** X2.  Two texts with an empty line between them are rendered as the one
    and then the other: nothing of a paragraph or a list goes across an
    empty line. *)
Theorem render_empty_line_composes (a b : jsstring) :
  renderMarkdown (a ++ nl ++ nl ++ b) = renderMarkdown a ++ renderMarkdown b.
Proof.
  rewrite !renderMarkdown_lines.
  change (a ++ nl ++ nl ++ b) with (a ++ LF :: (LF :: b)).
  rewrite split_lines_app.
  change (split_lines (LF :: b)) with ([] :: split_lines b).
  apply render_lines_empty_line.
Qed.

(** X3.  A line feed at the end of the text, or at its start, changes
    nothing in the output. *)
Theorem render_ignores_outer_line_feed (text : jsstring) :
  renderMarkdown (text ++ nl) = renderMarkdown text
  /\ renderMarkdown (nl ++ text) = renderMarkdown text.
Proof.
  rewrite !renderMarkdown_lines. split.
  - change (text ++ nl) with (text ++ LF :: []).
    rewrite split_lines_app. change (split_lines []) with ([[] : jsstring]).
    rewrite render_lines_empty_line. apply app_nil_r.
  - change (split_lines (nl ++ text)) with ([] :: split_lines text).
    apply (render_lines_empty_line [] (split_lines text)).
Qed.

Lemma split_lines_forallb p text :
  forallb p text = true ->
  Forall (fun l => forallb p l = true) (split_lines text).
Proof.
  induction text as [|c text IH]; simpl; intros H.
  - repeat constructor.
  - apply andb_true_iff in H as [Hc Ht]. specialize (IH Ht).
    destruct (c =? LF)%N; [now constructor|].
    destruct (split_lines text) as [|l ls]; [repeat constructor; simpl; now rewrite Hc|].
    inversion IH; subst. constructor; [simpl; now rewrite Hc|assumption].
Qed.

Lemma split_lines_forallb_inv p text :
  p LF = true ->
  Forall (fun l => forallb p l = true) (split_lines text) ->
  forallb p text = true.
Proof.
  intros Hlf. induction text as [|c text IH]; simpl; [reflexivity|].
  destruct (N.eqb_spec c LF) as [->|Hc].
  - intros H. inversion H; subst. now rewrite Hlf, IH.
  - pose proof (split_lines_nonempty text) as Hne.
    destruct (split_lines text) as [|l ls]; [congruence|].
    intros H. inversion H as [|? ? Hl Hls]; subst.
    simpl in Hl. apply andb_true_iff in Hl as [Hpc Hl].
    rewrite Hpc. apply IH. now constructor.
Qed.

(** A blank line is blank to the loop. *)
Lemma line_kind_blank (l : jsstring) :
  forallb is_space l = true -> line_kind l = None.
Proof.
  intros Hl. rewrite line_kind_spec.
  rewrite (inline_untouched l)
    by (apply (forallb_weaken is_space); [apply space_no_marker|exact Hl]).
  unfold ol_item, ul_item. rewrite (drop_while_all is_space l Hl).
  now rewrite Hl.
Qed.

Lemma render_lines_all_blank lines :
  Forall (fun l => line_kind l = None) lines -> render_lines lines = [].
Proof.
  induction lines as [|l ls IH]; intros H; [reflexivity|].
  inversion H as [|? ? Hl Hls]; subst.
  change (l :: ls) with ([l] ++ ls).
  rewrite render_lines_break
    by (unfold last_kind; simpl; rewrite Hl; reflexivity).
  rewrite (IH Hls), app_nil_r.
  unfold render_lines. simpl run. rewrite (step_blank init l Hl). reflexivity.
Qed.

(** A replace whose replacement starts with a code unit that is not a
    blank gives a blank string only when it changes nothing. *)
Lemma replace_scan_blank r c0 u t' :
  is_space c0 = false ->
  forall s i,
    forallb is_space (replace_scan r (Text (c0 :: u) :: t') 0 i s) = true ->
    replace_scan r (Text (c0 :: u) :: t') 0 i s = s.
Proof.
  intros Hc0. induction s as [|x s IH]; intros i; simpl.
  - destruct (rmatch r i [] [] accept) as [[rest c]|]; [|reflexivity].
    unfold substitute. simpl. now rewrite Hc0.
  - destruct (rmatch r i (x :: s) [] accept) as [[rest c]|].
    + unfold substitute. simpl. now rewrite Hc0.
    + simpl. intros H. apply andb_true_iff in H as [_ H]. now rewrite IH.
Qed.

Lemma replace_bold_blank s :
  forallb is_space (replace_bold s) = true -> replace_bold s = s.
Proof.
  exact (replace_scan_blank re_bold (N_of_ascii "<") (tl (lit "<strong>"))
           [Ref 1; Ref 2; Text (lit "</strong>")] eq_refl s 0).
Qed.

Lemma replace_em_blank s :
  forallb is_space (replace_em s) = true -> replace_em s = s.
Proof.
  exact (replace_scan_blank re_em (N_of_ascii "<") (tl (lit "<em>"))
           [Ref 1; Ref 2; Text (lit "</em>")] eq_refl s 0).
Qed.

Lemma replace_code_blank s :
  forallb is_space (replace_code s) = true -> replace_code s = s.
Proof.
  exact (replace_scan_blank re_code (N_of_ascii "<") (tl code_open)
           [Ref 1; Text (lit "</code>")] eq_refl s 0).
Qed.

(** A line is blank after the three replaces only if it was blank. *)
Lemma inline_blank (l : jsstring) :
  forallb is_space (inline l) = true -> forallb is_space l = true.
Proof.
  unfold inline. intros H.
  rewrite (replace_code_blank _ H) in H.
  rewrite (replace_em_blank _ H) in H.
  now rewrite (replace_bold_blank _ H) in H.
Qed.

Lemma block_html_nonempty b : block_html b <> [].
Proof. destruct b as [ls|[|] es]; discriminate. Qed.

Lemma blocks_html_nil bs : blocks_html bs = [] -> bs = [].
Proof.
  destruct bs as [|b bs]; [reflexivity|]. unfold blocks_html. simpl.
  intros H. apply app_eq_nil in H as [H _]. now apply block_html_nonempty in H.
Qed.

Lemma group_nil cs : forall cur,
  group cur cs = [] -> cur = None /\ Forall (fun c => c = Blank) cs.
Proof.
  induction cs as [|c cs IH]; intros cur; simpl.
  - destruct cur; [discriminate|]. now split.
  - intros H. apply app_eq_nil in H as [H1 H2].
    apply IH in H2 as [Hsnd Hall].
    destruct c as [t m| |line].
    + destruct cur as [[ls|t' es]|]; simpl in Hsnd; try discriminate.
      destruct (list_type_eqb t' t); discriminate.
    + destruct cur; [discriminate|]. split; [reflexivity|now constructor].
    + destruct cur as [[ls|t' es]|]; discriminate.
Qed.

Lemma classify_blank (l : jsstring) :
  classify l = Blank -> forallb is_space (inline l) = true.
Proof.
  unfold classify, classify_line.
  destruct (str_match re_ol _); [discriminate|].
  destruct (str_match re_ul _); [discriminate|].
  destruct (trim (inline l)) eqn:E; [|discriminate].
  intros _. now apply trim_nil_iff.
Qed.

(** X1.  The output is empty exactly when the text is blank: empty, or
    made of blanks and line feeds only. *)
Theorem render_empty_iff_blank (text : jsstring) :
  renderMarkdown text = [] <-> forallb is_space text = true.
Proof.
  split.
  - rewrite renderMarkdown_blocks. intros H. apply blocks_html_nil in H.
    apply group_nil in H as [_ H].
    apply (split_lines_forallb_inv is_space); [reflexivity|].
    apply Forall_forall. intros l Hl.
    rewrite Forall_forall in H.
    apply inline_blank, classify_blank, H, in_map, Hl.
  - intros H. rewrite renderMarkdown_lines. apply render_lines_all_blank.
    pose proof (split_lines_forallb is_space text H) as Hall.
    rewrite Forall_forall in *. intros l Hl. now apply line_kind_blank, Hall.
Qed.

Lemma group_contents cs : forall cur,
  flat_map block_contents (group cur cs)
  = flat_map block_contents (close_block cur) ++ flat_map class_contents cs.
Proof.
  induction cs as [|c cs IH]; intros cur.
  - simpl. now rewrite app_nil_r.
  - simpl group. rewrite flat_map_app, IH.
    change (flat_map class_contents (c :: cs))
      with (class_contents c ++ flat_map class_contents cs).
    rewrite !app_assoc. f_equal.
    destruct c as [t m| |line]; destruct cur as [[ls|t' es]|]; simpl;
      rewrite ?app_nil_r; try reflexivity.
    + destruct (list_type_eqb t' t) eqn:E; simpl.
      * apply list_type_eqb_eq in E. subst.
        now rewrite app_nil_r, map_app.
      * now rewrite !app_nil_r.
    + now rewrite map_app.
Qed.

(** X4.  Every line that is not blank gives one entry or one paragraph
    line, and the blocks hold them in the order of the lines: nothing is
    left out, repeated or moved. *)
Theorem blocks_keep_lines_in_order (text : jsstring) :
  renderMarkdown text = blocks_html (blocks text)
  /\ flat_map block_contents (blocks text)
     = flat_map class_contents (map classify (split_lines text)).
Proof.
  split; [apply renderMarkdown_blocks|].
  unfold blocks. now rewrite group_contents.
Qed.

End RendererMore.

(** ** More on the conversation view *)

Section ViewMore.

Import View Sources.

(** X10.  When the render of a history completes there is one bubble for
    every message, in the order of the history; its body is the markup of
    the text of the first part of the message, whatever the other parts
    are, and it is at the end of the row exactly for a user message. *)
Theorem history_view_bubbles (history : list message) (bs : list bubble) :
  history_view history = Normal bs ->
  Forall2
    (fun m b =>
       exists p ps,
         parts m = p :: ps
         /\ body b = renderMarkdown (text p)
         /\ at_end b = match role m with user => true | model => false end)
    history bs.
Proof.
  revert bs. induction history as [|m rest IH]; intros bs; simpl.
  - intros [= <-]. constructor.
  - unfold message_view, first_part_text.
    destruct (parts m) as [|p ps] eqn:Ep; simpl; [discriminate|].
    destruct (history_view rest) as [bs'|]; [|discriminate].
    intros [= <-]. constructor; [|now apply IH].
    exists p, ps. now repeat split.
Qed.

Lemma history_view_bubbles_witness :
  Forall2
    (fun m b =>
       exists p ps,
         parts m = p :: ps
         /\ body b = renderMarkdown (text p)
         /\ at_end b = match role m with user => true | model => false end)
    [mkMessage user [mkPart (lit "hi"); mkPart (lit "more")] None;
     mkMessage model [mkPart (lit "- a")] None]
    [mkBubble true (renderMarkdown (lit "hi")) None;
     mkBubble false (renderMarkdown (lit "- a")) None].
Proof. apply history_view_bubbles. reflexivity. Defined.

(** X11.  The Sources section of a bubble is there exactly for a model
    message with at least one grounding chunk, and has one place for every
    chunk, in order; the place of a chunk is empty when the chunk has no
    retrieved context, no text, or an empty text, so the section can be
    there with nothing in it.  A user message has no Sources section,
    grounding chunks or not. *)
Theorem sources_section (m : message) (b : bubble) :
  message_view m = Normal b ->
  (forall entries,
      sources b = Some entries <->
      role m = model
      /\ exists c cs,
          groundingChunks m = Some (c :: cs)
          /\ entries = map source_view (c :: cs))
  /\ (role m = user -> sources b = None)
  /\ (forall c,
        source_view c = None <->
        retrievedContext c = None \/ retrievedContext c = Some None
        \/ retrievedContext c = Some (Some [])).
Proof.
  unfold message_view, first_part_text.
  destruct (parts m) as [|p ps]; simpl; [discriminate|].
  intros [= <-]. simpl. split; [|split].
  - intros entries. destruct (role m), (groundingChunks m) as [[|c cs]|];
      split; try discriminate; try (intros [H _]; discriminate);
      try (intros [_ [c' [cs' [H _]]]]; discriminate).
    + intros [= <-]. split; [reflexivity|]. now exists c, cs.
    + intros [_ [c' [cs' [[= <- <-] ->]]]]. reflexivity.
  - now intros ->.
  - intros c. unfold source_view.
    destruct (retrievedContext c) as [[[|x t]|]|]; simpl; split;
      try discriminate; try tauto;
      intros [H|[H|H]]; discriminate.
Qed.

Lemma sources_section_witness :
  sources (mkBubble false (renderMarkdown (lit "a")) (Some [None]))
  = Some [None] <->
  role (mkMessage model [mkPart (lit "a")] (Some [mkChunk None])) = model
  /\ exists c cs,
      groundingChunks (mkMessage model [mkPart (lit "a")] (Some [mkChunk None]))
      = Some (c :: cs)
      /\ [None] = map source_view (c :: cs).
Proof.
  apply (proj1 (sources_section
                  (mkMessage model [mkPart (lit "a")] (Some [mkChunk None]))
                  (mkBubble false (renderMarkdown (lit "a")) (Some [None]))
                  eq_refl) [None]).
Defined.

Lemma source_entries_spec chunks : forall i n markup,
  In (n, markup) (source_entries i chunks) <->
  exists j c,
    n = i + j + 1 /\ nth_error chunks j = Some c
    /\ source_view c = Some markup.
Proof.
  induction chunks as [|c rest IH]; intros i n markup; simpl.
  - split; [tauto|]. intros [[|j] [c [_ [H _]]]]; discriminate.
  - assert (Hrest : In (n, markup) (source_entries (S i) rest) <->
                    exists j c', n = i + S j + 1 /\ nth_error rest j = Some c'
                                 /\ source_view c' = Some markup).
    { rewrite IH. split; intros [j [c' [Hn H]]]; exists j, c';
        (split; [lia|exact H]). }
    destruct (source_view c) as [h|] eqn:E; simpl.
    + split.
      * intros [[= <- <-]|H].
        -- exists 0, c. repeat split; [lia|assumption].
        -- apply Hrest in H as [j [c' [Hn H]]]. exists (S j), c'. now split.
      * intros [[|j] [c' [Hn [Hc Hv]]]]; simpl in Hc.
        -- left. injection Hc as <-. rewrite E in Hv. injection Hv as <-.
           f_equal. lia.
        -- right. apply Hrest. now exists j, c'.
    + split.
      * intros H. apply Hrest in H as [j [c' [Hn H]]]. exists (S j), c'.
        now split.
      * intros [[|j] [c' [Hn [Hc Hv]]]]; simpl in Hc.
        -- injection Hc as <-. congruence.
        -- apply Hrest. now exists j, c'.
Qed.

(** X12.  A source is labelled with the place of its chunk in
    [groundingChunks], counted from 1: the label [n] is shown, with the
    markup of the chunk's text, exactly when the chunk at place [n] has a
    text that is not empty; the labels of the chunks that show nothing are
    skipped, not given to the next source. *)
Theorem source_labels_follow_chunks (chunks : list chunk) (n : nat)
  (markup : jsstring) :
  In (n, markup) (source_entries 0 chunks) <->
  exists c t,
    1 <= n /\ nth_error chunks (n - 1) = Some c
    /\ retrievedContext c = Some (Some t) /\ t <> []
    /\ markup = renderMarkdown t.
Proof.
  rewrite source_entries_spec. split.
  - intros [j [c [Hn [Hc Hv]]]].
    unfold source_view in Hv.
    destruct (retrievedContext c) as [[[|x t]|]|] eqn:E; try discriminate.
    simpl in Hv. injection Hv as <-. exists c, (x :: t).
    replace (n - 1) with j by lia.
    repeat split; [lia|assumption|assumption|discriminate].
  - intros [c [t [Hn [Hc [Ht [Hne ->]]]]]]. exists (n - 1), c.
    repeat split; [lia|assumption|].
    unfold source_view. rewrite Ht. destruct t; [congruence|reflexivity].
Qed.

End ViewMore.

(** ** More on the form *)

Section FormMore.

Import Form Controls.

(** X13.  The submit button is enabled exactly when no query is loading
    and the handler would send: then a submit calls [onSendMessage] with
    the query and empties the query. *)
Theorem submit_enabled_iff (isQueryLoading : bool) (q : jsstring) :
  submitDisabled isQueryLoading q = false <->
  isQueryLoading = false /\ handleSubmit q = mkOutcome true [q] [].
Proof.
  unfold submitDisabled, handleSubmit.
  destruct isQueryLoading, (truthy (trim q)); simpl; split;
    try discriminate; try tauto; intros [H1 H2]; discriminate.
Qed.

(** X14.  A second submit right after any submit sends nothing, and the
    submit button is disabled after any submit: the query is then empty,
    or was blank already. *)
Theorem no_double_send (q : jsstring) :
  sent (handleSubmit (query (handleSubmit q))) = []
  /\ forall isQueryLoading,
      submitDisabled isQueryLoading (query (handleSubmit q)) = true.
Proof.
  unfold submitDisabled, handleSubmit.
  destruct (truthy (trim q)) eqn:E; simpl.
  - split; [reflexivity|]. intros l. now rewrite orb_true_r.
  - rewrite E. split; [reflexivity|]. intros l. now rewrite orb_true_r.
Qed.

End FormMore.

(** ** More on the suggestion rotator *)

Section RotatorMore.

Import Rotator Controls.

(** X16.  A tick of any interval but the one the component holds changes
    nothing: after a new list, or the unmount, the callback of an earlier
    interval cannot set the suggestion. *)
Theorem stale_tick_changes_nothing (qs : list jsstring) (es : list event)
  (id : nat) :
  cleanup (handle_all (mount qs) es) <> Some id ->
  tick id (handle_all (mount qs) es) = handle_all (mount qs) es.
Proof.
  assert (Ht : tidy (handle_all (mount qs) es))
    by (apply tidy_handle_all, tidy_mount).
  destruct (handle_all (mount qs) es) as [cur tbl nid [id0|] m];
    unfold tidy in Ht; simpl in Ht |- *; intros Hid.
  - destruct Ht as [_ [_ [cl ->]]]. unfold tick. simpl.
    destruct (Nat.eqb_spec id0 id) as [->|]; [congruence|reflexivity].
  - subst tbl. reflexivity.
Qed.

Lemma stale_tick_changes_nothing_witness :
  tick 0 (handle_all (mount [lit "x"]) [Render [lit "y"; lit "z"]])
  = handle_all (mount [lit "x"]) [Render [lit "y"; lit "z"]].
Proof.
  apply (stale_tick_changes_nothing [lit "x"] [Render [lit "y"; lit "z"]] 0).
  discriminate.
Defined.

Lemma shows_tidy L c : shows L c -> tidy c.
Proof.
  unfold shows, tidy. destruct (cleanup c).
  - intros [Hm [Hlt [i [_ [Hi _]]]]]. repeat split; try assumption.
    eexists. exact Hi.
  - now intros [H _].
Qed.

Lemma shows_unmounted L c :
  shows L c -> mounted c = false -> forall L', shows L' c.
Proof.
  unfold shows. destruct (cleanup c).
  - intros [Hm _] Hf. congruence.
  - intros [Hi _] Hf L'. split; [assumption|]. congruence.
Qed.

Lemma shows_effect qs c :
  intervals c = [] -> mounted c = true -> shows qs (effect qs c).
Proof.
  intros Hi Hm. unfold effect, shows.
  destruct qs as [|q qs]; simpl.
  - split; [assumption|]. now intros _.
  - rewrite Hi. repeat split; [assumption|lia|].
    exists 0. repeat split. lia.
Qed.

Lemma shows_tick L id c : shows L c -> shows L (tick id c).
Proof.
  destruct c as [cur tbl nid [id0|] m]; unfold shows, tick; simpl.
  - intros [Hm [Hlt [i [Hi [-> Hc]]]]]. simpl.
    destruct (Nat.eqb id0 id); simpl.
    + repeat split; try assumption.
      exists ((i + 1) mod length L). subst m. repeat split.
      apply Nat.mod_upper_bound. lia.
    + repeat split; try assumption. now exists i.
  - intros [-> H]. simpl. now split.
Qed.

Lemma shows_handle_all es : forall L c,
  shows L c -> shows (latest L es) (handle_all c es).
Proof.
  induction es as [|e es IH]; intros L c Hs; [assumption|].
  pose proof (shows_tidy L c Hs) as Ht.
  destruct e as [qs'|id|]; simpl.
  - apply IH. destruct (mounted c) eqn:Hm.
    + destruct (run_cleanup_tidy c Ht) as [Hi _].
      apply shows_effect; [assumption|].
      unfold run_cleanup. destruct (cleanup c); assumption.
    + now apply (shows_unmounted L).
  - apply IH. now apply shows_tick.
  - destruct (run_cleanup_tidy c Ht) as [Hi Hc].
    set (c' := mkComponent _ _ _ _ false).
    assert (Hs' : shows L c').
    { unfold shows. simpl. rewrite Hc. split; [assumption|discriminate]. }
    rewrite unmounted_handle_all; [assumption| |reflexivity].
    now apply (shows_tidy L).
Qed.

Lemma shows_latest qs es : shows (latest qs es) (handle_all (mount qs) es).
Proof. apply shows_handle_all. now apply shows_effect. Qed.

(** X17.  While the component is mounted, whatever renders with a new list
    and ticks came before, the current suggestion is defined and is an
    element of the list of the latest render, or the empty string when
    that list is empty: it is never [undefined] and never an element of a
    list that was replaced. *)
Theorem current_suggestion_from_latest_list (qs : list jsstring)
  (es : list event) :
  mounted (handle_all (mount qs) es) = true ->
  (latest qs es = []
   /\ currentSuggestion (handle_all (mount qs) es) = Some [])
  \/ (exists s,
        currentSuggestion (handle_all (mount qs) es) = Some s
        /\ In s (latest qs es)).
Proof.
  pose proof (shows_latest qs es) as Hs. unfold shows in Hs.
  destruct (cleanup (handle_all (mount qs) es)).
  - destruct Hs as [_ [_ [i [Hi [_ Hc]]]]]. intros _. right.
    destruct (nth_error (latest qs es) i) as [s|] eqn:E.
    + exists s. split; [assumption|]. now apply nth_error_In in E.
    + apply nth_error_None in E. lia.
  - destruct Hs as [_ Hs]. intros Hm. left. now apply Hs.
Qed.

Lemma current_suggestion_from_latest_list_witness :
  (latest [lit "x"] [Tick 0; Render [lit "y"; lit "z"]; Tick 1] = []
   /\ currentSuggestion
        (handle_all (mount [lit "x"])
           [Tick 0; Render [lit "y"; lit "z"]; Tick 1]) = Some [])
  \/ (exists s,
        currentSuggestion
          (handle_all (mount [lit "x"])
             [Tick 0; Render [lit "y"; lit "z"]; Tick 1]) = Some s
        /\ In s (latest [lit "x"] [Tick 0; Render [lit "y"; lit "z"]; Tick 1])).
Proof.
  apply (current_suggestion_from_latest_list [lit "x"]
           [Tick 0; Render [lit "y"; lit "z"]; Tick 1]).
  reflexivity.
Defined.

(** X18.  While the component is mounted the suggestion button is hidden
    when the list of the latest render is empty; when no element of that
    list is the empty string and the list is not empty, the button is
    shown exactly when no query is loading. *)
Theorem suggestion_button_shown (qs : list jsstring) (es : list event)
  (isQueryLoading : bool) :
  mounted (handle_all (mount qs) es) = true ->
  (latest qs es = [] ->
   suggestionShown isQueryLoading
     (currentSuggestion (handle_all (mount qs) es)) = false)
  /\ (latest qs es <> [] ->
      Forall (fun s => s <> []) (latest qs es) ->
      suggestionShown isQueryLoading
        (currentSuggestion (handle_all (mount qs) es))
      = negb isQueryLoading).
Proof.
  intros Hm. unfold suggestionShown.
  pose proof (shows_latest qs es) as Hs. unfold shows in Hs.
  destruct (cleanup (handle_all (mount qs) es)).
  - destruct Hs as [_ [_ [i [Hi [_ ->]]]]]. split.
    + intros HL. rewrite HL in Hi. simpl in Hi. lia.
    + intros _ Hall. rewrite Forall_forall in Hall.
      destruct (nth_error (latest qs es) i) as [s|] eqn:E.
      * apply nth_error_In, Hall in E. destruct s; [congruence|].
        apply andb_true_r.
      * apply nth_error_None in E. lia.
  - destruct Hs as [_ Hs]. destruct (Hs Hm) as [HL ->]. split.
    + intros _. apply andb_false_r.
    + congruence.
Qed.

Lemma suggestion_button_shown_witness :
  (latest [lit "x"] [Render []; Tick 0] = [] ->
   suggestionShown false
     (currentSuggestion (handle_all (mount [lit "x"]) [Render []; Tick 0]))
   = false)
  /\ (latest [lit "x"] [Render []; Tick 0] <> [] ->
      Forall (fun s => s <> []) (latest [lit "x"] [Render []; Tick 0]) ->
      suggestionShown false
        (currentSuggestion (handle_all (mount [lit "x"]) [Render []; Tick 0]))
      = negb false).
Proof.
  apply (suggestion_button_shown [lit "x"] [Render []; Tick 0] false).
  reflexivity.
Defined.

End RotatorMore.

(** ** Rotation, in every state of the component *)

Section Rotation.

Import Rotator.

Lemma tick_holding id nid L i :
  tick id (holding id nid L i) = holding id nid L ((i + 1) mod length L).
Proof. unfold tick, holding. simpl. now rewrite Nat.eqb_refl. Qed.

Lemma ticks_holding id nid L n : forall i,
  i < length L ->
  ticks n (holding id nid L i) = holding id nid L ((i + n) mod length L).
Proof.
  induction n as [|n IH]; intros i Hi.
  - simpl. now rewrite Nat.add_0_r, Nat.mod_small.
  - change (ticks (S n) (holding id nid L i))
      with (ticks n (tick id (holding id nid L i))).
    rewrite tick_holding, IH by (apply Nat.mod_upper_bound; lia).
    f_equal. rewrite Nat.Div0.add_mod_idemp_l. f_equal. lia.
Qed.

(** A render with a list that is not empty leaves the component holding a
    new interval on that list, at index 0. *)
Lemma render_holding c q qs :
  tidy c -> mounted c = true ->
  handle c (Render (q :: qs)) = holding (nextId c) (S (nextId c)) (q :: qs) 0.
Proof.
  intros Ht Hm. destruct (run_cleanup_tidy c Ht) as [Hi _].
  destruct (run_cleanup_keeps c) as [Hn [Hmm _]].
  simpl. rewrite Hm. unfold effect, holding. simpl.
  now rewrite Hi, Hn, Hmm, Hm.
Qed.

Lemma ticks_after_render qs0 es q qs n :
  mounted (handle_all (mount qs0) es) = true ->
  ticks n (handle (handle_all (mount qs0) es) (Render (q :: qs)))
  = holding (nextId (handle_all (mount qs0) es))
      (S (nextId (handle_all (mount qs0) es))) (q :: qs)
      (n mod length (q :: qs)).
Proof.
  intros Hm.
  rewrite render_holding;
    [|apply tidy_handle_all, tidy_mount|assumption].
  rewrite ticks_holding by (simpl; lia). reflexivity.
Qed.

(** A component that holds an interval holds it on the list of the latest
    render and shows the element its callback is at. *)
Lemma reachable_holding qs0 es id :
  cleanup (handle_all (mount qs0) es) = Some id ->
  exists i,
    i < length (latest qs0 es)
    /\ handle_all (mount qs0) es
       = holding id (nextId (handle_all (mount qs0) es)) (latest qs0 es) i.
Proof.
  pose proof (shows_latest qs0 es) as Hs. unfold shows in Hs.
  destruct (handle_all (mount qs0) es) as [cur tbl nid cl m]. simpl in *.
  intros ->. destruct Hs as [-> [_ [i [Hi [-> ->]]]]].
  exists i. now split.
Qed.

(** While the component is mounted and the latest list is not empty, it
    holds an interval. *)
Lemma reachable_interval qs0 es :
  mounted (handle_all (mount qs0) es) = true ->
  latest qs0 es <> [] ->
  exists id, cleanup (handle_all (mount qs0) es) = Some id.
Proof.
  pose proof (shows_latest qs0 es) as Hs. unfold shows in Hs.
  destruct (cleanup (handle_all (mount qs0) es)) as [id|];
    [now exists id|].
  intros Hm Hne. destruct Hs as [_ Hs]. now destruct (Hs Hm).
Qed.

(** While the component is mounted and the latest list is empty, it holds
    no interval and shows the empty string. *)
Lemma reachable_empty qs0 es :
  mounted (handle_all (mount qs0) es) = true ->
  latest qs0 es = [] ->
  handle_all (mount qs0) es
  = mkComponent (Some []) [] (nextId (handle_all (mount qs0) es)) None true.
Proof.
  pose proof (shows_latest qs0 es) as Hs. unfold shows in Hs.
  destruct (handle_all (mount qs0) es) as [cur tbl nid cl m]. simpl in *.
  intros -> HL. rewrite HL in Hs. destruct cl as [id|].
  - destruct Hs as [_ [_ [i [Hi _]]]]. simpl in Hi. lia.
  - destruct Hs as [-> Hs]. destruct (Hs eq_refl) as [_ ->]. reflexivity.
Qed.

(** Claim C5.  With a list that is not empty, the current suggestion
    before any tick is the first element; the [n]-th tick leaves the index
    at [n] modulo the length and the current suggestion at the element of
    that index, which exists; one tick takes index [i] to [i + 1] modulo
    the length.  With the list [x], [y], [z] the values are [x], then [y],
    [z], [x].  This holds for the list of the mount and for every list a
    later render supplies, after any renders and ticks; and in every state
    the mounted component can reach while that list is the latest, it
    holds one interval, whose tick takes the index from [i] to [i + 1]
    modulo the length and sets the current suggestion to the element
    there, and [n] ticks take it to [i + n] modulo the length. *)
Theorem C5_rotation (q : jsstring) (qs : list jsstring) :
  currentSuggestion (mount (q :: qs)) = Some q
  /\ (forall n,
        ticks n (mount (q :: qs))
        = running (q :: qs) (n mod length (q :: qs)))
  /\ (forall n,
        currentSuggestion (ticks n (mount (q :: qs)))
        = nth_error (q :: qs) (n mod length (q :: qs))
        /\ exists s, currentSuggestion (ticks n (mount (q :: qs))) = Some s)
  /\ (forall i,
        tick 0 (running (q :: qs) i)
        = running (q :: qs) ((i + 1) mod length (q :: qs)))
  /\ map (fun n => currentSuggestion
                     (ticks n (mount [lit "x"; lit "y"; lit "z"])))
         [0; 1; 2; 3]
      = [Some (lit "x"); Some (lit "y"); Some (lit "z"); Some (lit "x")]
  /\ (forall qs0 es,
        mounted (handle_all (mount qs0) es) = true ->
        currentSuggestion
          (handle (handle_all (mount qs0) es) (Render (q :: qs))) = Some q
        /\ forall n,
            ticks n (handle (handle_all (mount qs0) es) (Render (q :: qs)))
            = holding (nextId (handle_all (mount qs0) es))
                (S (nextId (handle_all (mount qs0) es))) (q :: qs)
                (n mod length (q :: qs))
            /\ currentSuggestion
                 (ticks n
                    (handle (handle_all (mount qs0) es) (Render (q :: qs))))
               = nth_error (q :: qs) (n mod length (q :: qs))
            /\ exists s,
                currentSuggestion
                  (ticks n
                     (handle (handle_all (mount qs0) es) (Render (q :: qs))))
                = Some s)
  /\ (forall qs0 es,
        mounted (handle_all (mount qs0) es) = true ->
        latest qs0 es = q :: qs ->
        exists id i,
          i < length (q :: qs)
          /\ cleanup (handle_all (mount qs0) es) = Some id
          /\ handle_all (mount qs0) es
             = holding id (nextId (handle_all (mount qs0) es)) (q :: qs) i
          /\ tick id (handle_all (mount qs0) es)
             = holding id (nextId (handle_all (mount qs0) es)) (q :: qs)
                 ((i + 1) mod length (q :: qs))
          /\ currentSuggestion (tick id (handle_all (mount qs0) es))
             = nth_error (q :: qs) ((i + 1) mod length (q :: qs))
          /\ forall n,
              ticks n (handle_all (mount qs0) es)
              = holding id (nextId (handle_all (mount qs0) es)) (q :: qs)
                  ((i + n) mod length (q :: qs))).
Proof.
  assert (Hdef : forall n,
             exists s, nth_error (q :: qs) (n mod length (q :: qs)) = Some s).
  { intros n.
    destruct (nth_error (q :: qs) (n mod length (q :: qs))) as [s|] eqn:E;
      [now exists s|].
    apply nth_error_None in E.
    pose proof (Nat.mod_upper_bound n (length (q :: qs))) as Hlt.
    simpl length in *. lia. }
  split; [reflexivity|]. split; [apply ticks_mount|].
  split; [|split; [intros; apply tick_running|split; [reflexivity|split]]].
  - intros n. rewrite ticks_mount. unfold running, index.
    cbn [currentSuggestion]. split; [reflexivity|apply Hdef].
  - intros qs0 es Hm. split.
    + rewrite render_holding;
        [reflexivity|apply tidy_handle_all, tidy_mount|assumption].
    + intros n. rewrite (ticks_after_render qs0 es q qs n Hm).
      split; [reflexivity|]. split; [reflexivity|apply Hdef].
  - intros qs0 es Hm HL.
    destruct (reachable_interval qs0 es Hm) as [id Hc];
      [rewrite HL; discriminate|].
    destruct (reachable_holding qs0 es id Hc) as [i [Hi Heq]].
    rewrite HL in Hi, Heq.
    exists id, i. split; [assumption|]. split; [assumption|].
    split; [assumption|].
    split; [rewrite Heq at 1; apply tick_holding|].
    split; [rewrite Heq at 1; now rewrite tick_holding|].
    intros n. rewrite Heq at 1. now apply ticks_holding.
Qed.

(** The list [x], [y], [z] supplied after the list [a] and one tick: the
    second tick of the new interval. *)
Lemma C5_rotation_witness :
  ticks 2
    (handle (handle_all (mount [lit "a"]) [Tick 0])
       (Render [lit "x"; lit "y"; lit "z"]))
  = holding (nextId (handle_all (mount [lit "a"]) [Tick 0]))
      (S (nextId (handle_all (mount [lit "a"]) [Tick 0])))
      [lit "x"; lit "y"; lit "z"] (2 mod length [lit "x"; lit "y"; lit "z"])
  /\ currentSuggestion
       (ticks 2
          (handle (handle_all (mount [lit "a"]) [Tick 0])
             (Render [lit "x"; lit "y"; lit "z"])))
     = nth_error [lit "x"; lit "y"; lit "z"]
         (2 mod length [lit "x"; lit "y"; lit "z"])
  /\ exists s,
      currentSuggestion
        (ticks 2
           (handle (handle_all (mount [lit "a"]) [Tick 0])
              (Render [lit "x"; lit "y"; lit "z"])))
      = Some s.
Proof.
  apply (proj2 (proj1 (proj2 (proj2 (proj2 (proj2 (proj2
           (C5_rotation (lit "x") [lit "y"; lit "z"]))))))
           [lit "a"] [Tick 0] eq_refl) 2).
Defined.

(** Claim C7.  On the empty list the effect sets the current suggestion to
    the empty string, starts no interval and returns no cleanup, whatever
    the component was before.  So it is at the mount with the empty list,
    and so it is when the empty list comes after any renders and ticks: the
    suggestion shown before is replaced by the empty string, the interval
    held before is cleared, and from then on no tick, of whatever id and
    however many, changes the component.  In every state the mounted
    component can reach while the empty list is the latest, the current
    suggestion is the empty string and no interval is held. *)
Theorem C7_empty_list :
  currentSuggestion (mount []) = Some []
  /\ intervals (mount []) = []
  /\ cleanup (mount []) = None
  /\ (forall ids, handle_all (mount []) (map Tick ids) = mount [])
  /\ (forall n, ticks n (mount []) = mount [])
  /\ (forall c,
        currentSuggestion (effect [] c) = Some []
        /\ intervals (effect [] c) = intervals c
        /\ nextId (effect [] c) = nextId c
        /\ cleanup (effect [] c) = None)
  /\ (forall qs es,
        mounted (handle_all (mount qs) es) = true ->
        currentSuggestion (handle (handle_all (mount qs) es) (Render []))
        = Some []
        /\ intervals (handle (handle_all (mount qs) es) (Render [])) = []
        /\ cleanup (handle (handle_all (mount qs) es) (Render [])) = None
        /\ (forall ids,
              handle_all (handle (handle_all (mount qs) es) (Render []))
                (map Tick ids)
              = handle (handle_all (mount qs) es) (Render []))
        /\ (forall n,
              ticks n (handle (handle_all (mount qs) es) (Render []))
              = handle (handle_all (mount qs) es) (Render [])))
  /\ (forall qs es,
        mounted (handle_all (mount qs) es) = true ->
        latest qs es = [] ->
        currentSuggestion (handle_all (mount qs) es) = Some []
        /\ intervals (handle_all (mount qs) es) = []
        /\ cleanup (handle_all (mount qs) es) = None
        /\ (forall ids,
              handle_all (handle_all (mount qs) es) (map Tick ids)
              = handle_all (mount qs) es)
        /\ (forall n,
              ticks n (handle_all (mount qs) es) = handle_all (mount qs) es)).
Proof.
  split; [reflexivity|]. split; [reflexivity|]. split; [reflexivity|].
  split; [intros ids; now apply tick_events_no_interval|].
  split; [intros n; now apply ticks_no_interval|].
  split; [intros c; now repeat split|]. split.
  - intros qs es Hm.
    assert (Ht : tidy (handle_all (mount qs) es))
      by (apply tidy_handle_all, tidy_mount).
    rewrite (render_empty _ Ht Hm). repeat split.
    + intros ids. now apply tick_events_no_interval.
    + intros n. now apply ticks_no_interval.
  - intros qs es Hm HL. rewrite (reachable_empty qs es Hm HL). repeat split.
    + intros ids. now apply tick_events_no_interval.
    + intros n. now apply ticks_no_interval.
Qed.

(** The empty list after the list [x], [y] and one tick. *)
Lemma C7_empty_list_witness :
  currentSuggestion
    (handle (handle_all (mount [lit "x"; lit "y"]) [Tick 0]) (Render []))
  = Some []
  /\ intervals
       (handle (handle_all (mount [lit "x"; lit "y"]) [Tick 0]) (Render []))
     = []
  /\ cleanup
       (handle (handle_all (mount [lit "x"; lit "y"]) [Tick 0]) (Render []))
     = None
  /\ (forall ids,
        handle_all
          (handle (handle_all (mount [lit "x"; lit "y"]) [Tick 0]) (Render []))
          (map Tick ids)
        = handle (handle_all (mount [lit "x"; lit "y"]) [Tick 0]) (Render []))
  /\ (forall n,
        ticks n
          (handle (handle_all (mount [lit "x"; lit "y"]) [Tick 0]) (Render []))
        = handle (handle_all (mount [lit "x"; lit "y"]) [Tick 0]) (Render [])).
Proof.
  apply (proj1 (proj2 (proj2 (proj2 (proj2 (proj2 (proj2 C7_empty_list))))))
           [lit "x"; lit "y"] [Tick 0]).
  reflexivity.
Defined.

(** X15.  With a list that is not empty, supplied at the mount or by a
    render after any renders and ticks, tick [i] shows the element of
    index [i] for every index of the list, so every question is shown
    before the first comes back, and the sequence repeats with the length
    of the list as its period. *)
Theorem rotation_shows_every_question (q : jsstring) (qs : list jsstring) :
  (forall i,
      i < length (q :: qs) ->
      currentSuggestion (ticks i (mount (q :: qs))) = nth_error (q :: qs) i)
  /\ (forall n,
        ticks (n + length (q :: qs)) (mount (q :: qs))
        = ticks n (mount (q :: qs)))
  /\ (forall s,
        In s (q :: qs) ->
        exists n,
          n < length (q :: qs)
          /\ currentSuggestion (ticks n (mount (q :: qs))) = Some s)
  /\ (forall qs0 es,
        mounted (handle_all (mount qs0) es) = true ->
        (forall i,
            i < length (q :: qs) ->
            currentSuggestion
              (ticks i (handle (handle_all (mount qs0) es) (Render (q :: qs))))
            = nth_error (q :: qs) i)
        /\ (forall n,
              ticks (n + length (q :: qs))
                (handle (handle_all (mount qs0) es) (Render (q :: qs)))
              = ticks n
                  (handle (handle_all (mount qs0) es) (Render (q :: qs))))
        /\ (forall s,
              In s (q :: qs) ->
              exists n,
                n < length (q :: qs)
                /\ currentSuggestion
                     (ticks n
                        (handle (handle_all (mount qs0) es)
                           (Render (q :: qs))))
                   = Some s)).
Proof.
  assert (Hperiod : forall n,
             (n + length (q :: qs)) mod length (q :: qs)
             = n mod length (q :: qs)).
  { intros n. rewrite <- (Nat.mul_1_l (length (q :: qs))) at 1.
    apply Nat.Div0.mod_add. }
  assert (H1 : forall i,
             i < length (q :: qs) ->
             currentSuggestion (ticks i (mount (q :: qs)))
             = nth_error (q :: qs) i).
  { intros i Hi. rewrite ticks_mount, (Nat.mod_small i _ Hi). reflexivity. }
  split; [exact H1|]. split; [|split].
  - intros n. rewrite !ticks_mount. f_equal. apply Hperiod.
  - intros s Hs. apply In_nth_error in Hs as [n Hn]. exists n.
    assert (Hlt : n < length (q :: qs))
      by (apply nth_error_Some; congruence).
    split; [assumption|]. now rewrite (H1 n Hlt).
  - intros qs0 es Hm.
    assert (H2 : forall i,
               i < length (q :: qs) ->
               currentSuggestion
                 (ticks i
                    (handle (handle_all (mount qs0) es) (Render (q :: qs))))
               = nth_error (q :: qs) i).
    { intros i Hi.
      rewrite (ticks_after_render qs0 es q qs i Hm), (Nat.mod_small i _ Hi).
      reflexivity. }
    split; [exact H2|]. split.
    + intros n. rewrite !(ticks_after_render qs0 es q qs _ Hm).
      f_equal. apply Hperiod.
    + intros s Hs. apply In_nth_error in Hs as [n Hn]. exists n.
      assert (Hlt : n < length (q :: qs))
        by (apply nth_error_Some; congruence).
      split; [assumption|]. now rewrite (H2 n Hlt).
Qed.

(** The list [x], [y] supplied after the list [a] and two ticks: its
    second element at the first tick of the new interval. *)
Lemma rotation_shows_every_question_witness :
  currentSuggestion
    (ticks 1
       (handle (handle_all (mount [lit "a"; lit "b"]) [Tick 0; Tick 0])
          (Render [lit "x"; lit "y"])))
  = nth_error [lit "x"; lit "y"] 1.
Proof.
  apply (proj1 (proj2 (proj2 (proj2
           (rotation_shows_every_question (lit "x") [lit "y"])))
           [lit "a"; lit "b"] [Tick 0; Tick 0] eq_refl) 1).
  simpl. lia.
Defined.

End Rotation.
